(** * FlareCloud: the R2 range worker, shallowly embedded

    Two workers serve objects of an R2 bucket over HTTP:

    - [src/r2_worker.js], the deferred-size variant ([Module Deferred]):
      the byte window is computed against a configured maximum length and
      reconciled with the object's size once the ranged [get] returned;
    - [src/unnamed/part_000], the eager-size variant ([Module Eager]): the
      size comes from a [head] probe before the window is computed.

    [normalizeKey], [build304Headers] and [withCommonHeaders] are the same
    text in both files and are embedded once.

    Modelling conventions.
    - A JavaScript string is a [string] holding its UTF-8 bytes.
    - A JavaScript number is [JsNumber]: an exact integer, an infinity or
      NaN.  Arithmetic on the integers is exact, as doubles are up to 2^53;
      fractions are outside the model.  [Module Rounded] holds the
      conversion and the two parsers with the rounding of doubles, for the
      byte positions beyond 2^53; below that bound the two agree
      ([Rounded_Deferred_parseRange_exact], [Rounded_Eager_parseRange_exact]).
    - [null] and [undefined] are [None].
    - [Headers] is a finite map from header names, spelled as the code
      spells them, to values.
    - [await env.BUCKET.head/get] is an effect: [fetch] is a program of the
      [Storage] monad, and [run] interprets it against a bucket, logging
      every call with its result. *)

From Stdlib Require Import ZArith Ascii String DecimalString.
From stdpp Require Import base option strings list gmap.

Open Scope Z_scope.

#[local] Arguments String.append : simpl nomatch.

(** ** JavaScript strings *)

(** [\d] of a regular expression without the [u] flag: ASCII 0-9. *)
Definition isDigit (c : ascii) : bool :=
  let n := Z.of_N (N_of_ascii c) in (48 <=? n) && (n <=? 57).

Arguments isDigit : simpl never.

(** The longest prefix matched by [\d*], and what follows it. *)
Fixpoint spanDigits (s : string) : string * string :=
  match s with
  | String c s' =>
      if isDigit c
      then let '(d, r) := spanDigits s' in (String c d, r)
      else (EmptyString, s)
  | EmptyString => (EmptyString, EmptyString)
  end.

Fixpoint allDigits (s : string) : bool :=
  match s with
  | String c s' => isDigit c && allDigits s'
  | EmptyString => true
  end.

(** A value that is neither [null] nor [undefined]. *)
Definition present {A : Type} (v : option A) : bool :=
  match v with
  | Some _ => true
  | None => false
  end.

Fixpoint stripPrefix (p s : string) : option string :=
  match p, s with
  | EmptyString, _ => Some s
  | String a p', String b s' => if Ascii.eqb a b then stripPrefix p' s' else None
  | String _ _, EmptyString => None
  end.

(** [s.startsWith(p)] *)
Definition startsWith (s p : string) : bool := present (stripPrefix p s).

(** [s.endsWith(suf)]: some suffix of [s] is [suf]. *)
Fixpoint endsWith (s suf : string) : bool :=
  String.eqb s suf ||
  match s with
  | String _ s' => endsWith s' suf
  | EmptyString => false
  end.

(** [s.includes(sub)]: [sub] starts at some position of [s]. *)
Fixpoint includes (s sub : string) : bool :=
  startsWith s sub ||
  match s with
  | String _ s' => includes s' sub
  | EmptyString => false
  end.

(** [key.replace(/^\/+/, "")] *)
Fixpoint stripLeadingSlashes (s : string) : string :=
  match s with
  | String c s' => if Ascii.eqb c "/" then stripLeadingSlashes s' else s
  | EmptyString => EmptyString
  end.

(** The character U+0000, written ["\0"] in the source. *)
Definition NUL : string := String "000" EmptyString.

(** JavaScript truthiness of a value that is a string, [null] or
    [undefined]. *)
Definition truthy (v : option string) : bool :=
  match v with
  | Some s => negb (String.eqb s "")
  | None => false
  end.

(** ** JavaScript numbers *)

Inductive JsNumber : Type :=
| Num (z : Z)
| Infinity
| NegInfinity
| NaN.

(** [Number.isFinite(v)], giving the value when it holds. *)
Definition finite (v : JsNumber) : option Z :=
  match v with
  | Num z => Some z
  | _ => None
  end.

Definition digitValue (c : ascii) : Z := Z.of_N (N_of_ascii c) - 48.

Fixpoint decimalValue (acc : Z) (s : string) : Z :=
  match s with
  | String c s' => decimalValue (10 * acc + digitValue c) s'
  | EmptyString => acc
  end.

(** Decimal integers from here on are [Infinity] as doubles: the largest
    finite double plus half a unit in its last place. *)
Definition DOUBLE_OVERFLOW : Z := 2 ^ 1024 - 2 ^ 970.

(** [Number(s)] for a capture of [\d*], the only strings the range parsers
    convert. *)
Definition Number (s : string) : JsNumber :=
  let v := decimalValue 0 s in
  if v <? DOUBLE_OVERFLOW then Num v else Infinity.

(** [String(n)] and [`${n}`] for an integer [n]: its decimal digits, as
    JavaScript prints integers below 10^21. *)
Definition NumberToString (n : Z) : string :=
  NilZero.string_of_int (Z.to_int n).

(** [String(v)] for a value that is a number or [undefined]. *)
Definition String_ (v : option Z) : string :=
  match v with
  | Some n => NumberToString n
  | None => "undefined"
  end.

(** ** [decodeURIComponent]

    The built-in, on UTF-8 strings: every [%XX] is replaced by its octet; a
    [%] without two hexadecimal digits, or escaped octets that are not
    well-formed UTF-8, throw [URIError] ([None]). *)

Definition hexValue (c : ascii) : option Z :=
  let n := Z.of_N (N_of_ascii c) in
  if (48 <=? n) && (n <=? 57) then Some (n - 48)
  else if (65 <=? n) && (n <=? 70) then Some (n - 55)
  else if (97 <=? n) && (n <=? 102) then Some (n - 87)
  else None.

Inductive UriToken : Type :=
| Lit (c : ascii)
| Esc (octet : Z).

Fixpoint uriTokens (s : string) : option (list UriToken) :=
  match s with
  | EmptyString => Some []
  | String c rest =>
      if Ascii.eqb c "%" then
        match rest with
        | String h (String l rest') =>
            match hexValue h, hexValue l with
            | Some x, Some y => cons (Esc (16 * x + y)) <$> uriTokens rest'
            | _, _ => None
            end
        | _ => None
        end
      else cons (Lit c) <$> uriTokens rest
  end.

Definition octet (b : Z) : ascii := ascii_of_N (Z.to_N b).

Definition inRange (lo hi b : Z) : bool := (lo <=? b) && (b <=? hi).

(** Bounds of the second octet of a well-formed sequence led by [b]. *)
Definition secondOctetRange (b : Z) : Z * Z :=
  if b =? 224 then (160, 191)
  else if b =? 237 then (128, 159)
  else if b =? 240 then (144, 191)
  else if b =? 244 then (128, 143)
  else (128, 191).

Fixpoint uriOctets (ts : list UriToken) : option string :=
  match ts with
  | [] => Some EmptyString
  | Lit c :: r => String c <$> uriOctets r
  | Esc b :: r =>
      let '(lo, hi) := secondOctetRange b in
      if b <? 128 then String (octet b) <$> uriOctets r
      else if inRange 194 223 b then
        match r with
        | Esc b1 :: r' =>
            if inRange lo hi b1
            then (fun s => String (octet b) (String (octet b1) s)) <$> uriOctets r'
            else None
        | _ => None
        end
      else if inRange 224 239 b then
        match r with
        | Esc b1 :: Esc b2 :: r' =>
            if inRange lo hi b1 && inRange 128 191 b2
            then (fun s => String (octet b) (String (octet b1) (String (octet b2) s)))
                   <$> uriOctets r'
            else None
        | _ => None
        end
      else if inRange 240 244 b then
        match r with
        | Esc b1 :: Esc b2 :: Esc b3 :: r' =>
            if inRange lo hi b1 && inRange 128 191 b2 && inRange 128 191 b3
            then (fun s => String (octet b) (String (octet b1)
                             (String (octet b2) (String (octet b3) s))))
                   <$> uriOctets r'
            else None
        | _ => None
        end
      else None
  end.

Definition decodeURIComponent (s : string) : option string :=
  uriTokens s ≫= uriOctets.

(** ** [normalizeKey] (both files, lines 1-17) *)

Definition normalizeKey (pathname : string) : option string :=
  match decodeURIComponent pathname with
  | None => None
  | Some key =>
      let key := stripLeadingSlashes key in
      if String.eqb key "" then Some "index.html"
      else if endsWith key "/" then Some (key +:+ "index.html")
      else if includes key ".." || includes key NUL then None
      else Some key
  end.

(** ** Byte windows and the [Range] grammar *)

(** [{ offset, length, start, end }] *)
Record ByteWindow : Type := {
  w_offset : Z;
  w_length : Z;
  w_start : Z;
  w_end : Z
}.

(** [rangeHeader.match(re)] for the expression [^bytes=(D)-(D)$] of both
    files, where [D] stands for [\d*]: the two captures.  A digit is never
    [-], so the greedy first capture is the only way to match. *)
Definition rangeMatch (header : string) : option (string * string) :=
  match stripPrefix "bytes=" header with
  | None => None
  | Some rest =>
      let '(startStr, rest1) := spanDigits rest in
      match rest1 with
      | String c rest2 =>
          if Ascii.eqb c "-" then
            let '(endStr, rest3) := spanDigits rest2 in
            if String.eqb rest3 "" then Some (startStr, endStr) else None
          else None
      | EmptyString => None
      end
  end.

(** What may follow the digits a [\d*] took: nothing, or no digit. *)
Definition noDigitAhead (s : string) : Prop :=
  match s with
  | String c _ => isDigit c = false
  | EmptyString => True
  end.

(** A [Range] value is malformed when it is not of the grammar. *)
Definition malformed (h : string) : Prop :=
  ¬ ∃ a b, h = "bytes=" +:+ a +:+ "-" +:+ b ∧ allDigits a = true ∧ allDigits b = true.

(** ** Headers, objects, requests and responses *)

Abbreviation Headers := (gmap string string).

(** [obj.httpMetadata]; the code reads [cacheControl] only. *)
Record HttpMetadata : Type := {
  cacheControl : option string
}.

(** An object returned by [env.BUCKET.get].  [size] is [None] when
    [typeof obj.size] is not ["number"]; [uploaded] holds
    [obj.uploaded.toUTCString()]; [writeHttpMetadata] is the object's method,
    giving the headers it leaves; [body] is [None] when the object has no
    body, and a body stream is truthy whatever it holds. *)
Record R2Object : Type := {
  size : option Z;
  httpEtag : string;
  uploaded : string;
  httpMetadata : option HttpMetadata;
  writeHttpMetadata : Headers → Headers;
  body : option string
}.

(** [url_pathname] is [new URL(request.url).pathname]. *)
Record Request : Type := {
  method : string;
  url_pathname : string;
  req_headers : Headers
}.

(** [new Response(body, { status, headers })]: the status, the headers and
    the body the handler passes to the constructor. *)
Record Response : Type := {
  status : Z;
  headers : Headers;
  resp_body : option string
}.

(** ** The storage effect *)

(** A handler that awaits [env.BUCKET.head(key)], which gives the size of
    the object ([head.size]) or [null], and
    [env.BUCKET.get(key, { onlyIf, range })]. *)
Inductive Storage (A : Type) : Type :=
| Ret (a : A)
| BucketHead (key : string) (k : option Z → Storage A)
| BucketGet (key : string) (onlyIf : Headers) (range : option (Z * Z))
    (k : option R2Object → Storage A).

Arguments Ret {A} a.
Arguments BucketHead {A} key k.
Arguments BucketGet {A} key onlyIf range k.

Fixpoint Storage_bind {A B : Type} (f : A → Storage B) (p : Storage A) : Storage B :=
  match p with
  | Ret a => f a
  | BucketHead key k => BucketHead key (λ r, Storage_bind f (k r))
  | BucketGet key onlyIf range k => BucketGet key onlyIf range (λ r, Storage_bind f (k r))
  end.

#[global] Instance Storage_mbind : MBind Storage := @Storage_bind.

Definition BUCKET_head (key : string) : Storage (option Z) :=
  BucketHead key Ret.

Definition BUCKET_get (key : string) (onlyIf : Headers) (range : option (Z * Z))
  : Storage (option R2Object) :=
  BucketGet key onlyIf range Ret.

Record Bucket : Type := {
  bucket_head : string → option Z;
  bucket_get : string → Headers → option (Z * Z) → option R2Object
}.

Inductive Call : Type :=
| CallHead (key : string) (result : option Z)
| CallGet (key : string) (onlyIf : Headers) (range : option (Z * Z))
    (result : option R2Object).

(** Runs a handler against a bucket: its result and the storage calls it
    made, in order. *)
Fixpoint run {A : Type} (b : Bucket) (p : Storage A) : A * list Call :=
  match p with
  | Ret a => (a, [])
  | BucketHead key k =>
      let r := bucket_head b key in
      let '(a, calls) := run b (k r) in (a, CallHead key r :: calls)
  | BucketGet key onlyIf range k =>
      let r := bucket_get b key onlyIf range in
      let '(a, calls) := run b (k r) in (a, CallGet key onlyIf range r :: calls)
  end.

(** ** Header builders (both files) *)

(** [build304Headers(obj)] *)
Definition build304Headers (obj : R2Object) : Headers :=
  let h : Headers := ∅ in
  let h := <["ETag" := httpEtag obj]> h in
  let h := <["Last-Modified" := uploaded obj]> h in
  if truthy (httpMetadata obj ≫= cacheControl)
  then <["Cache-Control" := default "" (httpMetadata obj ≫= cacheControl)]> h
  else h.

(** [withCommonHeaders(obj, headers)], giving the headers it leaves. *)
Definition withCommonHeaders (obj : R2Object) (headers : Headers) : Headers :=
  let headers := writeHttpMetadata obj headers in
  let headers := <["ETag" := httpEtag obj]> headers in
  let headers := <["Last-Modified" := uploaded obj]> headers in
  let headers := <["Accept-Ranges" := "bytes"]> headers in
  if negb (present (headers !! "Cache-Control"))
  then <["Cache-Control" := "public, max-age=3600"]> headers
  else headers.

(** Responses both handlers build with the same text. *)
Definition MethodNotAllowed : Response :=
  {| status := 405; headers := {["Allow" := "GET, HEAD"]};
     resp_body := Some "Method Not Allowed" |}.

Definition BadRequest : Response :=
  {| status := 400; headers := ∅; resp_body := Some "Bad Request" |}.

Definition NotFound : Response :=
  {| status := 404; headers := ∅; resp_body := Some "Not Found" |}.

Definition NotModified (obj : R2Object) : Response :=
  {| status := 304; headers := build304Headers obj; resp_body := None |}.

(** The full-object path that ends both handlers. *)
Definition fullObject (request : Request) (key : string) : Storage Response :=
  obj ← BUCKET_get key (req_headers request) None;
  match obj with
  | None => Ret NotFound
  | Some obj =>
      if negb (present (body obj)) then Ret (NotModified obj)
      else
        let headers := withCommonHeaders obj ∅ in
        let headers := <["Content-Length" := String_ (size obj)]> headers in
        Ret {| status := 200; headers := headers;
               resp_body := if String.eqb (method request) "HEAD" then None else body obj |}
  end.

(** ** The deferred-size worker, [src/r2_worker.js] *)

Module Deferred.

Definition DEFAULT_MAX_RANGE_BYTES : Z := 8 * 1024 * 1024.

(** [RANGE_MAX_BYTES] holds [Number(env?.RANGE_MAX_BYTES)]. *)
Record Env : Type := {
  RANGE_MAX_BYTES : JsNumber
}.

Definition getMaxRangeBytes (env : Env) : Z :=
  match finite (RANGE_MAX_BYTES env) with
  | Some value => if 0 <? value then value else DEFAULT_MAX_RANGE_BYTES
  | None => DEFAULT_MAX_RANGE_BYTES
  end.

(** What [parseRange] returns besides [null]. *)
Inductive RangeReq : Type :=
| invalid
| tooLarge
| window (w : ByteWindow).

Definition parseRange (rangeHeader : option string) (maxBytes : Z) : option RangeReq :=
  if negb (truthy rangeHeader) then None
  else
    match rangeMatch (default "" rangeHeader) with
    | None => Some invalid
    | Some (startStr, endStr) =>
        if String.eqb startStr "" && String.eqb endStr "" then Some invalid
        else if String.eqb startStr "" then Some invalid
        else
          match finite (Number startStr) with
          | None => Some invalid
          | Some start =>
              if start <? 0 then Some invalid
              else if String.eqb endStr "" then
                let length := maxBytes in
                let end_ := start + length - 1 in
                if maxBytes <? length then Some tooLarge
                else Some (window {| w_offset := start; w_length := length;
                                     w_start := start; w_end := end_ |})
              else
                match finite (Number endStr) with
                | None => Some invalid
                | Some end_ =>
                    if end_ <? start then Some invalid
                    else
                      let length := end_ - start + 1 in
                      if maxBytes <? length then Some tooLarge
                      else Some (window {| w_offset := start; w_length := length;
                                           w_start := start; w_end := end_ |})
                end
          end
    end.

Definition RangeNotSatisfiable : Response :=
  {| status := 416; headers := ∅; resp_body := Some "Range Not Satisfiable" |}.

Definition fetch (request : Request) (env : Env) : Storage Response :=
  if negb (String.eqb (method request) "GET") && negb (String.eqb (method request) "HEAD")
  then Ret MethodNotAllowed
  else
    let key := normalizeKey (url_pathname request) in
    if negb (truthy key) then Ret BadRequest
    else
      let key := default "" key in
      let rangeHeader := req_headers request !! "Range" in
      let rangeReq := parseRange rangeHeader (getMaxRangeBytes env) in
      match rangeReq with
      | Some invalid | Some tooLarge =>
          (* [parseRange] gives a marker for a truthy [rangeHeader] only
             ([Deferred_parseRange_truthy]), so this test always holds *)
          if truthy rangeHeader then Ret RangeNotSatisfiable
          else fullObject request key
      | Some (window rangeReq) =>
          obj ← BUCKET_get key (req_headers request)
                  (Some (w_offset rangeReq, w_length rangeReq));
          match obj with
          | None => Ret NotFound
          | Some obj =>
              if negb (present (body obj)) then Ret (NotModified obj)
              else
                let headers := withCommonHeaders obj ∅ in
                let totalSize := size obj in
                match totalSize with
                | Some totalSize =>
                    if totalSize <=? w_start rangeReq then
                      Ret {| status := 416;
                             headers := {["Content-Range" :=
                                            "bytes */" +:+ NumberToString totalSize]};
                             resp_body := Some "Range Not Satisfiable" |}
                    else
                      let end_ :=
                        Z.min (w_start rangeReq + w_length rangeReq - 1) (totalSize - 1) in
                      let length := end_ - w_start rangeReq + 1 in
                      let headers :=
                        <["Content-Range" :=
                            "bytes " +:+ NumberToString (w_start rangeReq) +:+ "-"
                            +:+ NumberToString end_ +:+ "/" +:+ NumberToString totalSize]>
                          headers in
                      let headers := <["Content-Length" := NumberToString length]> headers in
                      Ret {| status := 206; headers := headers;
                             resp_body := if String.eqb (method request) "HEAD"
                                          then None else body obj |}
                | None =>
                    let end_ := w_end rangeReq in
                    let length := end_ - w_start rangeReq + 1 in
                    let headers :=
                      <["Content-Range" :=
                          "bytes " +:+ NumberToString (w_start rangeReq) +:+ "-"
                          +:+ NumberToString end_ +:+ "/*"]>
                        headers in
                    let headers := <["Content-Length" := NumberToString length]> headers in
                    Ret {| status := 206; headers := headers;
                           resp_body := if String.eqb (method request) "HEAD"
                                        then None else body obj |}
                end
          end
      | None => fullObject request key
      end.

End Deferred.

(** ** The eager-size worker, [src/unnamed/part_000] *)

Module Eager.

Definition hasValidRangeFormat (header : option string) : bool :=
  truthy header && present (rangeMatch (default "" header)).

(** What [parseRange] returns besides [null]. *)
Inductive RangeReq : Type :=
| unsatisfiable
| window (w : ByteWindow).

Definition parseRange (rangeHeader : option string) (size : Z) : option RangeReq :=
  if negb (truthy rangeHeader) then None
  else
    match rangeMatch (default "" rangeHeader) with
    | None => None
    | Some (startStr, endStr) =>
        if String.eqb startStr "" && String.eqb endStr "" then None
        else if String.eqb startStr "" then
          match finite (Number endStr) with
          | None => None
          | Some suffix =>
              if suffix <=? 0 then None
              else
                let length := Z.min suffix size in
                let start := Z.max 0 (size - length) in
                let end_ := size - 1 in
                Some (window {| w_offset := start; w_length := length;
                                w_start := start; w_end := end_ |})
          end
        else
          match finite (Number startStr) with
          | None => None
          | Some start =>
              if start <? 0 then None
              else if String.eqb endStr "" then
                if size <=? start then Some unsatisfiable
                else
                  let end_ := size - 1 in
                  let length := size - start in
                  Some (window {| w_offset := start; w_length := length;
                                  w_start := start; w_end := end_ |})
              else
                match finite (Number endStr) with
                | None => None
                | Some end_ =>
                    if end_ <? start then None
                    else if size <=? start then Some unsatisfiable
                    else
                      let clampedEnd := Z.min end_ (size - 1) in
                      let length := clampedEnd - start + 1 in
                      Some (window {| w_offset := start; w_length := length;
                                      w_start := start; w_end := clampedEnd |})
                end
          end
    end.

Definition fetch (request : Request) : Storage Response :=
  if negb (String.eqb (method request) "GET") && negb (String.eqb (method request) "HEAD")
  then Ret MethodNotAllowed
  else
    let key := normalizeKey (url_pathname request) in
    if negb (truthy key) then Ret BadRequest
    else
      let key := default "" key in
      let rangeHeader := req_headers request !! "Range" in
      if hasValidRangeFormat rangeHeader then
        head ← BUCKET_head key;
        match head with
        | None => Ret NotFound
        | Some size =>
            let rangeReq := parseRange rangeHeader size in
            match rangeReq with
            | Some unsatisfiable =>
                Ret {| status := 416;
                       headers := {["Content-Range" := "bytes */" +:+ NumberToString size]};
                       resp_body := Some "Range Not Satisfiable" |}
            | Some (window rangeReq) =>
                obj ← BUCKET_get key (req_headers request)
                        (Some (w_offset rangeReq, w_length rangeReq));
                match obj with
                | None => Ret NotFound
                | Some obj =>
                    if negb (present (body obj)) then Ret (NotModified obj)
                    else
                      let headers := withCommonHeaders obj ∅ in
                      let headers :=
                        <["Content-Range" :=
                            "bytes " +:+ NumberToString (w_start rangeReq) +:+ "-"
                            +:+ NumberToString (w_end rangeReq) +:+ "/"
                            +:+ NumberToString size]>
                          headers in
                      let headers :=
                        <["Content-Length" := NumberToString (w_length rangeReq)]> headers in
                      Ret {| status := 206; headers := headers;
                             resp_body := if String.eqb (method request) "HEAD"
                                          then None else body obj |}
                end
            | None => fullObject request key
            end
        end
      else fullObject request key.

End Eager.

(** ** Sample objects, buckets and requests *)

(** An object of [size] bytes with no stored HTTP metadata, so that
    [writeHttpMetadata] writes nothing. *)
Definition sampleObject (size : Z) (content : option string) : R2Object :=
  {| size := Some size; httpEtag := "v1"; uploaded := "Thu, 01 Jan 2026 00:00:00 GMT";
     httpMetadata := None; writeHttpMetadata := λ h, h; body := content |}.

(** A bucket that holds [obj] under every key and gives it to every
    [get], whatever the validators and the range. *)
Definition sampleBucket (obj : R2Object) : Bucket :=
  {| bucket_head := λ _, Some (default 0 (size obj));
     bucket_get := λ _ _ _, Some obj |}.

Definition sampleRequest (method pathname : string) (range : option string) : Request :=
  {| method := method; url_pathname := pathname;
     req_headers := match range with
                    | Some r => {["Range" := r]}
                    | None => ∅
                    end |}.

(** No [RANGE_MAX_BYTES] in the environment: the maximum is the default. *)
Definition sampleEnv : Deferred.Env := {| Deferred.RANGE_MAX_BYTES := NaN |}.

(** The decimal digits of 10^309, which is beyond every finite double. *)
Definition tenTo309 : string :=
  "1000000000000000000000000000000000000000000000000000000000000000000000000000000000000000000000000000000000000000000000000000000000000000000000000000000000000000000000000000000000000000000000000000000000000000000000000000000000000000000000000000000000000000000000000000000000000000000000000000000000000000000000".

(** ** Doubles beyond 2^53 *)

(** Every integer up to here is a double, and sums and differences that
    stay within it are exact. *)
Definition SAFE_LIMIT : Z := 2 ^ 53.

Module Rounded.

(** The double nearest to the integer [v], ties to the even significand:
    53 significant bits. *)
Definition round (v : Z) : Z :=
  let a := Z.abs v in
  if a <=? SAFE_LIMIT then v
  else
    let ulp := 2 ^ (Z.log2 a - 52) in
    let q := a / ulp in
    let r := a mod ulp in
    let q' := if 2 * r <? ulp then q
              else if ulp <? 2 * r then q + 1
              else if Z.even q then q else q + 1 in
    Z.sgn v * (q' * ulp).

(** [x + y] and [x - y] on doubles that are integers, the result being
    finite. *)
Definition add (x y : Z) : Z := round (x + y).
Definition sub (x y : Z) : Z := round (x - y).

(** [Number(s)] for a capture of [\d*], as a double. *)
Definition Number (s : string) : JsNumber :=
  let v := round (decimalValue 0 s) in
  if v <? 2 ^ 1024 then Num v else Infinity.

(** [parseRange] of [src/r2_worker.js] in double arithmetic, for a maximum
    that is an integer. *)
Definition Deferred_parseRange (rangeHeader : option string) (maxBytes : Z)
  : option Deferred.RangeReq :=
  if negb (truthy rangeHeader) then None
  else
    match rangeMatch (default "" rangeHeader) with
    | None => Some Deferred.invalid
    | Some (startStr, endStr) =>
        if String.eqb startStr "" && String.eqb endStr "" then Some Deferred.invalid
        else if String.eqb startStr "" then Some Deferred.invalid
        else
          match finite (Number startStr) with
          | None => Some Deferred.invalid
          | Some start =>
              if start <? 0 then Some Deferred.invalid
              else if String.eqb endStr "" then
                let length := maxBytes in
                let end_ := sub (add start length) 1 in
                if maxBytes <? length then Some Deferred.tooLarge
                else Some (Deferred.window {| w_offset := start; w_length := length;
                                              w_start := start; w_end := end_ |})
              else
                match finite (Number endStr) with
                | None => Some Deferred.invalid
                | Some end_ =>
                    if end_ <? start then Some Deferred.invalid
                    else
                      let length := add (sub end_ start) 1 in
                      if maxBytes <? length then Some Deferred.tooLarge
                      else Some (Deferred.window {| w_offset := start; w_length := length;
                                                    w_start := start; w_end := end_ |})
                end
          end
    end.

(** [parseRange] of [src/unnamed/part_000] in double arithmetic. *)
Definition Eager_parseRange (rangeHeader : option string) (size : Z)
  : option Eager.RangeReq :=
  if negb (truthy rangeHeader) then None
  else
    match rangeMatch (default "" rangeHeader) with
    | None => None
    | Some (startStr, endStr) =>
        if String.eqb startStr "" && String.eqb endStr "" then None
        else if String.eqb startStr "" then
          match finite (Number endStr) with
          | None => None
          | Some suffix =>
              if suffix <=? 0 then None
              else
                let length := Z.min suffix size in
                let start := Z.max 0 (sub size length) in
                let end_ := sub size 1 in
                Some (Eager.window {| w_offset := start; w_length := length;
                                      w_start := start; w_end := end_ |})
          end
        else
          match finite (Number startStr) with
          | None => None
          | Some start =>
              if start <? 0 then None
              else if String.eqb endStr "" then
                if size <=? start then Some Eager.unsatisfiable
                else
                  let end_ := sub size 1 in
                  let length := sub size start in
                  Some (Eager.window {| w_offset := start; w_length := length;
                                        w_start := start; w_end := end_ |})
              else
                match finite (Number endStr) with
                | None => None
                | Some end_ =>
                    if end_ <? start then None
                    else if size <=? start then Some Eager.unsatisfiable
                    else
                      let clampedEnd := Z.min end_ (sub size 1) in
                      let length := add (sub clampedEnd start) 1 in
                      Some (Eager.window {| w_offset := start; w_length := length;
                                            w_start := start; w_end := clampedEnd |})
                end
          end
    end.

End Rounded.

(** ** Handlers compared and observed *)

(** [request] with another method. *)
Definition withMethod (m : string) (request : Request) : Request :=
  {| method := m; url_pathname := url_pathname request; req_headers := req_headers request |}.

(** The statuses of the responses built with [obj.body] or with no body:
    full, partial and not-modified. *)
Definition bodiless (status : Z) : bool :=
  (status =? 200) || (status =? 206) || (status =? 304).

(** [head] answers a HEAD request as [get] answers the GET request: same
    status and headers; no body where [get] is full, partial or
    not-modified, and the body of [get] otherwise. *)
Definition headOf (get head : Response) : Prop :=
  status head = status get
  ∧ headers head = headers get
  ∧ resp_body head = if bodiless (status get) then None else resp_body get.

(** Two handlers that make the same storage calls and, whatever the bucket
    answers, return a response and its HEAD counterpart. *)
Inductive mirrors : Storage Response → Storage Response → Prop :=
| mirrors_Ret (get head : Response) :
    headOf get head → mirrors (Ret get) (Ret head)
| mirrors_BucketHead (key : string) (k1 k2 : option Z → Storage Response) :
    (∀ r, mirrors (k1 r) (k2 r)) →
    mirrors (BucketHead key k1) (BucketHead key k2)
| mirrors_BucketGet (key : string) (onlyIf : Headers) (range : option (Z * Z))
    (k1 k2 : option R2Object → Storage Response) :
    (∀ r, mirrors (k1 r) (k2 r)) →
    mirrors (BucketGet key onlyIf range k1) (BucketGet key onlyIf range k2).


(** A handler all of whose responses satisfy [P]. *)
Inductive always (P : Response → Prop) : Storage Response → Prop :=
| always_Ret (r : Response) : P r → always P (Ret r)
| always_BucketHead (key : string) (k : option Z → Storage Response) :
    (∀ r, always P (k r)) → always P (BucketHead key k)
| always_BucketGet (key : string) (onlyIf : Headers) (range : option (Z * Z))
    (k : option R2Object → Storage Response) :
    (∀ r, always P (k r)) → always P (BucketGet key onlyIf range k).

(** The statuses a handler answers GET and HEAD requests with. *)
Definition knownStatus (r : Response) : Prop :=
  status r ∈ [200; 206; 304; 400; 404; 416].

(** What a full (200) or partial (206) response carries: the common
    headers and a length, and a range when partial. *)
Definition successHeaders (r : Response) : Prop :=
  status r = 200 ∨ status r = 206 →
  headers r !! "Accept-Ranges" = Some "bytes"
  ∧ is_Some (headers r !! "ETag")
  ∧ is_Some (headers r !! "Last-Modified")
  ∧ is_Some (headers r !! "Cache-Control")
  ∧ is_Some (headers r !! "Content-Length")
  ∧ (status r = 206 → is_Some (headers r !! "Content-Range")).

(** The statuses of the answers to a request with a range. *)
Definition rangedStatus (r : Response) : Prop :=
  status r ∈ [206; 304; 404; 416].

(** * Properties *)

(** ** Keys, on examples *)

Example normalizeKey_root : normalizeKey "/" = Some "index.html".
Proof. reflexivity. Qed.

Example normalizeKey_dir : normalizeKey "//docs/" = Some "docs/index.html".
Proof. reflexivity. Qed.

Example normalizeKey_file : normalizeKey "/a%20b/c.txt" = Some "a b/c.txt".
Proof. reflexivity. Qed.

Example normalizeKey_dotdot : normalizeKey "/a/b/../c" = None.
Proof. reflexivity. Qed.

Example normalizeKey_nul : normalizeKey "/a%00b" = None.
Proof. reflexivity. Qed.

Example normalizeKey_bad_escape : normalizeKey "/a%zz" = None.
Proof. reflexivity. Qed.

Example normalizeKey_bad_utf8 : normalizeKey "/%C0%AF" = None.
Proof. reflexivity. Qed.

Example normalizeKey_utf8 : normalizeKey "/%C3%A9" = Some (String "195" (String "169" "")).
Proof. reflexivity. Qed.

(** ** The [Range] grammar *)

Lemma stripPrefix_app (p s : string) : stripPrefix p (p +:+ s) = Some s.
Proof.
  induction p as [|a p IH]; simpl; [reflexivity|].
  by rewrite Ascii.eqb_refl.
Qed.

Lemma stripPrefix_Some (p s r : string) : stripPrefix p s = Some r → s = p +:+ r.
Proof.
  revert s. induction p as [|a p IH]; intros s; simpl.
  - by intros [= ->].
  - destruct s as [|c s]; [done|].
    destruct (Ascii.eqb a c) eqn:E; [|done].
    apply Ascii.eqb_eq in E as ->. intros H. by rewrite (IH _ H).
Qed.

Lemma append_empty_r (s : string) : s +:+ "" = s.
Proof. induction s as [|c s IH]; simpl; [done|]. by rewrite IH. Qed.

Lemma spanDigits_app (ds rest : string) :
  allDigits ds = true → noDigitAhead rest → spanDigits (ds +:+ rest) = (ds, rest).
Proof.
  intros Hds Hrest. induction ds as [|c ds IH]; simpl in *.
  - destruct rest as [|c rest]; [reflexivity|]. simpl in *. by rewrite Hrest.
  - apply andb_prop in Hds as [Hc Hds]. by rewrite Hc, (IH Hds).
Qed.

Lemma spanDigits_all (ds : string) : allDigits ds = true → spanDigits ds = (ds, EmptyString).
Proof.
  intros Hds. by rewrite <- (append_empty_r ds) at 1; rewrite spanDigits_app.
Qed.

Lemma spanDigits_split (s d r : string) :
  spanDigits s = (d, r) → s = d +:+ r ∧ allDigits d = true ∧ noDigitAhead r.
Proof.
  revert d r. induction s as [|c s IH]; intros d r; simpl.
  - by intros [= <- <-].
  - destruct (isDigit c) eqn:Hc.
    + destruct (spanDigits s) as [d' r'] eqn:Hs. intros [= <- <-].
      destruct (IH _ _ eq_refl) as (-> & Hd & Hr). simpl. by rewrite Hc, Hd.
    + intros [= <- <-]. simpl. by rewrite Hc.
Qed.

(** The strings the expression matches, and its captures. *)
Lemma rangeMatch_intro (a b : string) :
  allDigits a = true → allDigits b = true →
  rangeMatch ("bytes=" +:+ a +:+ "-" +:+ b) = Some (a, b).
Proof.
  intros Ha Hb. unfold rangeMatch. rewrite stripPrefix_app.
  rewrite (spanDigits_app a ("-" +:+ b) Ha) by reflexivity.
  simpl. by rewrite (spanDigits_all b Hb).
Qed.

Lemma rangeMatch_elim (h a b : string) :
  rangeMatch h = Some (a, b) →
  h = "bytes=" +:+ a +:+ "-" +:+ b ∧ allDigits a = true ∧ allDigits b = true.
Proof.
  unfold rangeMatch. destruct (stripPrefix "bytes=" h) as [rest|] eqn:Hp; [|done].
  apply stripPrefix_Some in Hp as ->.
  destruct (spanDigits rest) as [d r] eqn:Hd.
  apply spanDigits_split in Hd as (-> & Hda & _).
  destruct r as [|c r]; [done|].
  destruct (Ascii.eqb c "-") eqn:Hc; [|done]. apply Ascii.eqb_eq in Hc as ->.
  destruct (spanDigits r) as [e r3] eqn:He.
  apply spanDigits_split in He as (-> & Hea & _).
  destruct (String.eqb r3 "") eqn:H3; [|done]. apply String.eqb_eq in H3 as ->.
  intros [= <- <-]. split; [|done].
  by rewrite append_empty_r.
Qed.

Lemma rangeMatch_grammar (h : string) :
  is_Some (rangeMatch h) ↔
  ∃ a b, h = "bytes=" +:+ a +:+ "-" +:+ b ∧ allDigits a = true ∧ allDigits b = true.
Proof.
  split.
  - intros [[a b] H]. exists a, b. by apply rangeMatch_elim.
  - intros (a & b & -> & Ha & Hb). rewrite rangeMatch_intro by done. by eexists.
Qed.

Lemma malformed_rangeMatch (h : string) : malformed h ↔ rangeMatch h = None.
Proof.
  unfold malformed. rewrite <- rangeMatch_grammar, <- eq_None_not_Some. done.
Qed.

(** Digits never convert to a negative number. *)
Lemma decimalValue_nonneg (s : string) (acc : Z) :
  allDigits s = true → 0 ≤ acc → 0 ≤ decimalValue acc s.
Proof.
  revert acc. induction s as [|c s IH]; intros acc Hs Hacc; simpl in *; [done|].
  apply andb_prop in Hs as [Hc Hs]. apply IH; [done|].
  unfold isDigit, digitValue in *. lia.
Qed.

Lemma Number_nonneg (s : string) (n : Z) :
  allDigits s = true → Number s = Num n → 0 ≤ n.
Proof.
  unfold Number. intros Hs. destruct (_ <? _); [|done].
  intros [= <-]. by apply decimalValue_nonneg.
Qed.

(** A decimal integer converts to itself below the overflow bound and to
    [Infinity] from there on. *)
Lemma Number_cases (s : string) :
  (Number s = Num (decimalValue 0 s) ∧ decimalValue 0 s < DOUBLE_OVERFLOW)
  ∨ (Number s = Infinity ∧ DOUBLE_OVERFLOW ≤ decimalValue 0 s).
Proof.
  unfold Number. cbv zeta. destruct (_ <? _) eqn:E.
  - left. split; [done|]. by apply Z.ltb_lt.
  - right. split; [done|]. by apply Z.ltb_ge.
Qed.

Lemma Number_Num (s : string) (n : Z) :
  Number s = Num n → n = decimalValue 0 s ∧ n < DOUBLE_OVERFLOW.
Proof.
  destruct (Number_cases s) as [[-> H] | [-> _]]; [|done]. by intros [= <-].
Qed.

(** ** Keys *)

Lemma append_empty_inv (a b : string) : a +:+ b = "" → a = "".
Proof. by destruct a. Qed.

Lemma normalizeKey_truthy (pathname key : string) :
  normalizeKey pathname = Some key → truthy (Some key) = true.
Proof.
  unfold normalizeKey. destruct (decodeURIComponent pathname) as [d|]; [|done].
  simpl. destruct (String.eqb (stripLeadingSlashes d) "") eqn:He; [by intros [= <-]|].
  assert (stripLeadingSlashes d ≠ "") as Hne by by apply String.eqb_neq.
  destruct (endsWith _ "/").
  - intros [= <-]. apply negb_true_iff, String.eqb_neq.
    intros H. by apply append_empty_inv in H.
  - destruct (_ || _); [done|]. intros [= <-]. by rewrite He.
Qed.

(** ** The guards that open both handlers *)

Lemma method_guard (request : Request) :
  method request = "GET" ∨ method request = "HEAD" →
  negb (String.eqb (method request) "GET") && negb (String.eqb (method request) "HEAD") = false.
Proof. by intros [-> | ->]. Qed.

Lemma key_guard (pathname key : string) :
  normalizeKey pathname = Some key →
  truthy (normalizeKey pathname) = true ∧ default "" (normalizeKey pathname) = key.
Proof. intros H. split; [|by rewrite H]. rewrite H. by eapply normalizeKey_truthy. Qed.

Lemma truthy_bytes (s : string) : truthy (Some ("bytes=" +:+ s)) = true.
Proof. reflexivity. Qed.

Lemma eqb_empty_false (s : string) : s ≠ "" → String.eqb s "" = false.
Proof. by intros; apply String.eqb_neq. Qed.

Lemma finite_Number (s : string) (n : Z) : Number s = Num n → finite (Number s) = Some n.
Proof. by intros ->. Qed.

Lemma Number_ltb_0 (s : string) (n : Z) :
  allDigits s = true → Number s = Num n → (n <? 0) = false.
Proof. intros Hs Hn. apply Z.ltb_ge. by eapply Number_nonneg. Qed.

(** ** Doubles: where exact arithmetic is what the code computes *)

Lemma SAFE_LIMIT_pos : 0 < SAFE_LIMIT.
Proof. reflexivity. Qed.

Lemma SAFE_LIMIT_below_overflow : SAFE_LIMIT < DOUBLE_OVERFLOW.
Proof. reflexivity. Qed.

Lemma Rounded_round_exact (v : Z) :
  - SAFE_LIMIT ≤ v ≤ SAFE_LIMIT → Rounded.round v = v.
Proof.
  intros Hv. unfold Rounded.round. cbv zeta.
  by assert ((Z.abs v <=? SAFE_LIMIT) = true) as -> by (apply Z.leb_le; lia).
Qed.

Lemma Rounded_add_exact (x y : Z) :
  - SAFE_LIMIT ≤ x + y ≤ SAFE_LIMIT → Rounded.add x y = x + y.
Proof. apply Rounded_round_exact. Qed.

Lemma Rounded_sub_exact (x y : Z) :
  - SAFE_LIMIT ≤ x - y ≤ SAFE_LIMIT → Rounded.sub x y = x - y.
Proof. apply Rounded_round_exact. Qed.

(** Up to 2^53 the conversion is exact. *)
Lemma Rounded_Number_exact (s : string) :
  allDigits s = true → decimalValue 0 s ≤ SAFE_LIMIT →
  Rounded.Number s = Number s ∧ Number s = Num (decimalValue 0 s).
Proof.
  intros Hd Hv. pose proof (decimalValue_nonneg s 0 Hd ltac:(done)) as H0.
  pose proof SAFE_LIMIT_below_overflow as Ho.
  unfold Rounded.Number, Number. cbv zeta.
  rewrite Rounded_round_exact by lia.
  assert ((decimalValue 0 s <? DOUBLE_OVERFLOW) = true) as -> by (apply Z.ltb_lt; lia).
  assert ((decimalValue 0 s <? 2 ^ 1024) = true) as ->; [|done].
  apply Z.ltb_lt. unfold DOUBLE_OVERFLOW in Ho. lia.
Qed.

(** The deferred-size parser computes in doubles what [Deferred.parseRange]
    computes in integers, when the start plus the maximum is at most 2^53
    and the end below 2^53. *)
Lemma Rounded_Deferred_parseRange_exact (h : option string) (maxBytes : Z) :
  0 < maxBytes →
  (∀ a e, rangeMatch (default "" h) = Some (a, e) →
          decimalValue 0 a + maxBytes ≤ SAFE_LIMIT ∧ decimalValue 0 e < SAFE_LIMIT) →
  Rounded.Deferred_parseRange h maxBytes = Deferred.parseRange h maxBytes.
Proof.
  intros Hmax Hsafe. unfold Rounded.Deferred_parseRange, Deferred.parseRange.
  destruct (negb (truthy h)); [done|].
  destruct (rangeMatch _) as [[a e]|] eqn:Hm; [|done].
  destruct (Hsafe a e eq_refl) as [Ha He].
  apply rangeMatch_elim in Hm as (_ & Hda & Hde).
  pose proof (decimalValue_nonneg a 0 Hda ltac:(done)) as Ha0.
  pose proof (decimalValue_nonneg e 0 Hde ltac:(done)) as He0.
  destruct (Rounded_Number_exact a Hda ltac:(lia)) as [-> ->].
  destruct (Rounded_Number_exact e Hde ltac:(lia)) as [-> ->].
  cbn [finite]. cbv zeta.
  destruct (_ && _); [done|]. destruct (String.eqb a ""); [done|].
  destruct (_ <? 0); [done|]. destruct (String.eqb e "").
  - rewrite Rounded_add_exact by lia. by rewrite Rounded_sub_exact by lia.
  - destruct (decimalValue 0 e <? decimalValue 0 a) eqn:Hlt; [done|].
    apply Z.ltb_ge in Hlt.
    rewrite Rounded_sub_exact by lia. by rewrite Rounded_add_exact by lia.
Qed.

(** The eager-size parser computes in doubles what [Eager.parseRange]
    computes in integers, when the size and the numbers of the header are
    at most 2^53. *)
Lemma Rounded_Eager_parseRange_exact (h : option string) (size : Z) :
  0 ≤ size ≤ SAFE_LIMIT →
  (∀ a e, rangeMatch (default "" h) = Some (a, e) →
          decimalValue 0 a ≤ SAFE_LIMIT ∧ decimalValue 0 e ≤ SAFE_LIMIT) →
  Rounded.Eager_parseRange h size = Eager.parseRange h size.
Proof.
  intros Hsize Hsafe. unfold Rounded.Eager_parseRange, Eager.parseRange.
  destruct (negb (truthy h)); [done|].
  destruct (rangeMatch _) as [[a e]|] eqn:Hm; [|done].
  destruct (Hsafe a e eq_refl) as [Ha He].
  apply rangeMatch_elim in Hm as (_ & Hda & Hde).
  pose proof (decimalValue_nonneg a 0 Hda ltac:(done)) as Ha0.
  pose proof (decimalValue_nonneg e 0 Hde ltac:(done)) as He0.
  destruct (Rounded_Number_exact a Hda Ha) as [-> ->].
  destruct (Rounded_Number_exact e Hde He) as [-> ->].
  cbn [finite]. cbv zeta.
  destruct (_ && _); [done|]. destruct (String.eqb a "").
  { destruct (_ <=? 0) eqn:Hk; [done|]. apply Z.leb_gt in Hk.
    rewrite !Rounded_sub_exact by lia. done. }
  destruct (_ <? 0); [done|]. destruct (String.eqb e "").
  - destruct (size <=? _) eqn:Hu; [done|]. apply Z.leb_gt in Hu.
    by rewrite !Rounded_sub_exact by lia.
  - destruct (decimalValue 0 e <? decimalValue 0 a) eqn:Hlt; [done|].
    apply Z.ltb_ge in Hlt.
    destruct (size <=? _) eqn:Hu; [done|]. apply Z.leb_gt in Hu.
    rewrite (Rounded_sub_exact size 1) by lia.
    rewrite Rounded_sub_exact by lia. by rewrite Rounded_add_exact by lia.
Qed.

Lemma Rounded_round_pos (v : Z) : 1 ≤ v → 1 ≤ Rounded.round v.
Proof.
  intros Hv. unfold Rounded.round. cbv zeta.
  destruct (Z.abs v <=? SAFE_LIMIT) eqn:E; [done|]. apply Z.leb_gt in E.
  rewrite Z.abs_eq in * by lia. rewrite Z.sgn_pos by lia. rewrite Z.mul_1_l.
  assert (53 ≤ Z.log2 v) as Hlog.
  { apply Z.log2_le_pow2; [lia|]. unfold SAFE_LIMIT in E. lia. }
  set (ulp := 2 ^ (Z.log2 v - 52)).
  assert (0 < ulp) as Hulp by (apply Z.pow_pos_nonneg; lia).
  assert (ulp ≤ v) as Hle.
  { transitivity (2 ^ Z.log2 v); [apply Z.pow_le_mono_r; lia|].
    apply Z.log2_spec. lia. }
  assert (1 ≤ v / ulp) as Hq by (apply Z.div_le_lower_bound; lia).
  destruct (_ <? _); [nia|]. destruct (_ <? _); [nia|]. destruct (Z.even _); nia.
Qed.

Lemma Rounded_round_nonneg (v : Z) : 0 ≤ v → 0 ≤ Rounded.round v.
Proof.
  intros Hv. destruct (decide (v = 0)) as [-> | Hne]; [done|].
  pose proof (Rounded_round_pos v ltac:(lia)). lia.
Qed.

(** A closed range whose end is before its start, and a suffix range of
    length zero, in doubles. *)
Lemma Rounded_Eager_parseRange_reversed (ns ms : string) (size : Z) :
  allDigits ns = true → allDigits ms = true → ns ≠ "" → ms ≠ "" →
  decimalValue 0 ms < decimalValue 0 ns → decimalValue 0 ns ≤ SAFE_LIMIT →
  Rounded.Eager_parseRange (Some ("bytes=" +:+ ns +:+ "-" +:+ ms)) size = None.
Proof.
  intros Hdn Hdm Hnn Hnm Hlt Hsafe. unfold Rounded.Eager_parseRange.
  rewrite truthy_bytes. cbn [negb default from_option id].
  rewrite rangeMatch_intro by done.
  rewrite (eqb_empty_false ns Hnn), (eqb_empty_false ms Hnm).
  pose proof (decimalValue_nonneg ns 0 Hdn ltac:(done)) as Hn0.
  destruct (Rounded_Number_exact ns Hdn Hsafe) as [-> ->].
  destruct (Rounded_Number_exact ms Hdm ltac:(lia)) as [-> ->].
  cbn [andb finite].
  assert ((decimalValue 0 ns <? 0) = false) as -> by (apply Z.ltb_ge; lia).
  by assert ((decimalValue 0 ms <? decimalValue 0 ns) = true) as -> by by apply Z.ltb_lt.
Qed.

Lemma Rounded_Eager_parseRange_suffix_zero (ks : string) (size : Z) :
  allDigits ks = true → ks ≠ "" → decimalValue 0 ks ≤ 0 →
  Rounded.Eager_parseRange (Some ("bytes=-" +:+ ks)) size = None.
Proof.
  intros Hd Hne Hle. unfold Rounded.Eager_parseRange.
  change ("bytes=-" +:+ ks) with ("bytes=" +:+ "" +:+ "-" +:+ ks).
  rewrite truthy_bytes. cbn [negb default from_option id].
  rewrite rangeMatch_intro by done. rewrite (eqb_empty_false ks Hne).
  pose proof SAFE_LIMIT_pos.
  destruct (Rounded_Number_exact ks Hd ltac:(lia)) as [-> ->].
  cbn [String.eqb andb finite].
  by assert ((decimalValue 0 ks <=? 0) = true) as -> by by apply Z.leb_le.
Qed.

(** Beyond 2^53 the code leaves the integers. *)
Example Rounded_Number_2_53_plus_1 :
  Rounded.Number "9007199254740993" = Num 9007199254740992.
Proof. vm_compute. reflexivity. Qed.

Example Rounded_Eager_parseRange_same_double :
  Rounded.Eager_parseRange (Some "bytes=9007199254740993-9007199254740992") 50
  = Some Eager.unsatisfiable.
Proof. vm_compute. reflexivity. Qed.

(** ** The deferred-size parser on the three forms of the grammar *)

Lemma Deferred_getMaxRangeBytes_pos (env : Deferred.Env) : 0 < Deferred.getMaxRangeBytes env.
Proof.
  unfold Deferred.getMaxRangeBytes.
  destruct (finite _) as [v|]; [|done].
  destruct (0 <? v) eqn:E; [|done]. by apply Z.ltb_lt.
Qed.

Lemma Deferred_parseRange_truthy (h : option string) (maxBytes : Z) (r : Deferred.RangeReq) :
  Deferred.parseRange h maxBytes = Some r → truthy h = true.
Proof. unfold Deferred.parseRange. by destruct (truthy h). Qed.

Lemma Deferred_parseRange_malformed (h : string) (maxBytes : Z) :
  h ≠ "" → rangeMatch h = None →
  Deferred.parseRange (Some h) maxBytes = Some Deferred.invalid.
Proof.
  intros Hne Hm. unfold Deferred.parseRange. simpl.
  by rewrite (eqb_empty_false h Hne), Hm.
Qed.

Lemma Deferred_parseRange_suffix (ks : string) (maxBytes : Z) :
  allDigits ks = true →
  Deferred.parseRange (Some ("bytes=-" +:+ ks)) maxBytes = Some Deferred.invalid.
Proof.
  intros Hk. unfold Deferred.parseRange.
  change ("bytes=-" +:+ ks) with ("bytes=" +:+ "" +:+ "-" +:+ ks).
  rewrite truthy_bytes. cbn [negb default from_option id].
  rewrite rangeMatch_intro by done.
  by destruct (String.eqb ks "").
Qed.

Lemma Deferred_parseRange_open (ns : string) (n maxBytes : Z) :
  allDigits ns = true → ns ≠ "" → Number ns = Num n →
  Deferred.parseRange (Some ("bytes=" +:+ ns +:+ "-")) maxBytes =
  Some (Deferred.window {| w_offset := n; w_length := maxBytes;
                           w_start := n; w_end := n + maxBytes - 1 |}).
Proof.
  intros Hd Hne Hn. unfold Deferred.parseRange.
  rewrite truthy_bytes. cbn [negb default from_option id].
  change ("bytes=" +:+ ns +:+ "-") with ("bytes=" +:+ ns +:+ "-" +:+ "").
  rewrite rangeMatch_intro by done.
  rewrite (eqb_empty_false ns Hne), (finite_Number _ _ Hn), (Number_ltb_0 _ _ Hd Hn).
  cbn [andb String.eqb]. by rewrite Z.ltb_irrefl.
Qed.


Example Deferred_parseRange_500_999 :
  Deferred.parseRange (Some "bytes=500-999") 1000 =
  Some (Deferred.window {| w_offset := 500; w_length := 500; w_start := 500; w_end := 999 |}).
Proof. reflexivity. Qed.

Example Deferred_parseRange_multi :
  Deferred.parseRange (Some "bytes=0-1,5-9") 1000 = Some Deferred.invalid.
Proof. reflexivity. Qed.

Example Deferred_parseRange_absent : Deferred.parseRange None 1000 = None.
Proof. reflexivity. Qed.

(** ** The deferred-size handler *)

(** Unfolds a handler under its first two guards: an accepted method [Hm]
    and a key [Hk]. *)
Ltac pass_guards Hm Hk :=
  rewrite (method_guard _ Hm);
  let Ht := fresh in let Hd := fresh in
  destruct (key_guard _ _ Hk) as [Ht Hd];
  cbv zeta; rewrite Ht, Hd; cbn [negb]; clear Ht Hd.

Lemma Deferred_fetch_rejected (request : Request) (env : Deferred.Env) (key h : string) :
  method request = "GET" ∨ method request = "HEAD" →
  normalizeKey (url_pathname request) = Some key →
  req_headers request !! "Range" = Some h →
  h ≠ "" →
  Deferred.parseRange (Some h) (Deferred.getMaxRangeBytes env) = Some Deferred.invalid
  ∨ Deferred.parseRange (Some h) (Deferred.getMaxRangeBytes env) = Some Deferred.tooLarge →
  Deferred.fetch request env = Ret Deferred.RangeNotSatisfiable.
Proof.
  intros Hm Hk Hh Hne Hp. unfold Deferred.fetch. pass_guards Hm Hk.
  rewrite Hh. simpl truthy. rewrite (eqb_empty_false h Hne). cbn [negb].
  by destruct Hp as [-> | ->].
Qed.




(** An empty [Range] value is falsy: the parser returns [null] for it, as
    for an absent header. *)
Lemma Deferred_fetch_empty_range (request : Request) (env : Deferred.Env) (key : string) :
  method request = "GET" ∨ method request = "HEAD" →
  normalizeKey (url_pathname request) = Some key →
  req_headers request !! "Range" = Some "" →
  Deferred.fetch request env = fullObject request key.
Proof.
  intros Hm Hk Hh. unfold Deferred.fetch. pass_guards Hm Hk. by rewrite Hh.
Qed.

(** C7, as stated, fails: the empty [Range] value is not of the grammar,
    and the deferred-size handler answers it 200 with the whole object. *)
Lemma deferred_empty_range_not_rejected :
  malformed ""
  ∧ status (run (sampleBucket (sampleObject 50 (Some "content")))
              (Deferred.fetch (sampleRequest "GET" "/a.txt" (Some "")) sampleEnv)).1 = 200.
Proof.
  split; [|reflexivity]. by apply malformed_rangeMatch.
Qed.

(** C7, amended. Deferred-size variant: every suffix range [bytes=-K] and
    every non-empty [Range] value that is not of the grammar is answered
    416 with no [Content-Range] header (no header at all) and without a
    storage call; an empty [Range] value is handled as an absent header, on
    the full-object path. *)
Theorem deferred_suffix_and_malformed_rejected
    (request : Request) (env : Deferred.Env) (key h : string) :
  method request = "GET" ∨ method request = "HEAD" →
  normalizeKey (url_pathname request) = Some key →
  req_headers request !! "Range" = Some h →
  ((h ≠ "" ∧ malformed h) ∨ (∃ ks, allDigits ks = true ∧ h = "bytes=-" +:+ ks) →
   Deferred.fetch request env = Ret Deferred.RangeNotSatisfiable
   ∧ status Deferred.RangeNotSatisfiable = 416
   ∧ headers Deferred.RangeNotSatisfiable !! "Content-Range" = None
   ∧ headers Deferred.RangeNotSatisfiable = ∅)
  ∧ (h = "" → Deferred.fetch request env = fullObject request key).
Proof.
  intros Hm Hk Hh. split.
  - intros Hbad. split; [|done].
    destruct Hbad as [[Hne Hmal] | (ks & Hks & ->)].
    + apply (Deferred_fetch_rejected _ _ key h Hm Hk Hh Hne). left.
      apply Deferred_parseRange_malformed; [done|]. by apply malformed_rangeMatch.
    + apply (Deferred_fetch_rejected _ _ key _ Hm Hk Hh); [done|]. left.
      by apply Deferred_parseRange_suffix.
  - intros ->. by apply Deferred_fetch_empty_range.
Qed.

Lemma deferred_suffix_and_malformed_rejected_witness :
  Deferred.fetch (sampleRequest "GET" "/a.txt" (Some "bytes=-100")) sampleEnv
    = Ret Deferred.RangeNotSatisfiable
  ∧ Deferred.fetch (sampleRequest "HEAD" "/a.txt" (Some "items=0-5")) sampleEnv
    = Ret Deferred.RangeNotSatisfiable.
Proof.
  split.
  - refine (proj1 (proj1 (deferred_suffix_and_malformed_rejected
                     (sampleRequest "GET" "/a.txt" (Some "bytes=-100")) sampleEnv
                     "a.txt" "bytes=-100" (or_introl eq_refl) eq_refl eq_refl) _)).
    right. exists "100". split; reflexivity.
  - refine (proj1 (proj1 (deferred_suffix_and_malformed_rejected
                     (sampleRequest "HEAD" "/a.txt" (Some "items=0-5")) sampleEnv
                     "a.txt" "items=0-5" (or_intror eq_refl) eq_refl eq_refl) _)).
    left. split; [discriminate|].
    intros (a & b & H & _). discriminate H.
Defined.

(** C1. Deferred-size variant, after a ranged fetch that returned a body
    and a numeric size [S]: when the window's start is at or beyond [S] the
    response is 416 with [Content-Range: bytes */S]; otherwise it is 206,
    its [Content-Range] ends at [min(start + length - 1, S - 1)] and its
    [Content-Length] is that end minus the start plus one, which is the
    smaller of the requested length and what the object holds from
    [start]. *)
Theorem deferred_reconciles_with_reported_size
    (request : Request) (env : Deferred.Env) (b : Bucket)
    (key : string) (w : ByteWindow) (obj : R2Object) (content : string) (S : Z) :
  method request = "GET" ∨ method request = "HEAD" →
  normalizeKey (url_pathname request) = Some key →
  Deferred.parseRange (req_headers request !! "Range") (Deferred.getMaxRangeBytes env)
    = Some (Deferred.window w) →
  bucket_get b key (req_headers request) (Some (w_offset w, w_length w)) = Some obj →
  body obj = Some content →
  size obj = Some S →
  let resp := (run b (Deferred.fetch request env)).1 in
  let end_ := Z.min (w_start w + w_length w - 1) (S - 1) in
  (S ≤ w_start w →
     resp = {| status := 416;
               headers := {["Content-Range" := "bytes */" +:+ NumberToString S]};
               resp_body := Some "Range Not Satisfiable" |})
  ∧ (w_start w < S →
     status resp = 206
     ∧ headers resp !! "Content-Range"
       = Some ("bytes " +:+ NumberToString (w_start w) +:+ "-" +:+ NumberToString end_
               +:+ "/" +:+ NumberToString S)
     ∧ headers resp !! "Content-Length" = Some (NumberToString (end_ - w_start w + 1))
     ∧ end_ - w_start w + 1 = Z.min (w_length w) (S - w_start w)).
Proof.
  intros Hm Hk Hp Hget Hbody Hsize resp end_. subst resp.
  unfold Deferred.fetch. pass_guards Hm Hk. rewrite Hp.
  cbn [mbind Storage_mbind Storage_bind BUCKET_get run].
  rewrite Hget. cbn [Storage_bind]. rewrite Hbody, Hsize.
  cbn [present negb]. split.
  - intros Hge. apply Z.leb_le in Hge. rewrite Hge. reflexivity.
  - intros Hlt. apply Z.leb_gt in Hlt. rewrite Hlt. cbn [run fst status headers].
    repeat split.
    + rewrite lookup_insert_ne by done. by rewrite lookup_insert_eq.
    + by rewrite lookup_insert_eq.
    + subst end_. lia.
Qed.

Lemma deferred_reconciles_with_reported_size_witness :
  let b := sampleBucket (sampleObject 1000 (Some "content")) in
  let resp := (run b (Deferred.fetch (sampleRequest "GET" "/a.bin" (Some "bytes=0-"))
                        sampleEnv)).1 in
  (run b (Deferred.fetch (sampleRequest "GET" "/a.bin" (Some "bytes=1500-")) sampleEnv)).1
    = {| status := 416; headers := {["Content-Range" := "bytes */1000"]};
         resp_body := Some "Range Not Satisfiable" |}
  ∧ status resp = 206
  ∧ headers resp !! "Content-Range" = Some "bytes 0-999/1000"
  ∧ headers resp !! "Content-Length" = Some "1000".
Proof.
  intros b resp. split.
  - exact (proj1 (deferred_reconciles_with_reported_size
                    (sampleRequest "GET" "/a.bin" (Some "bytes=1500-")) sampleEnv b "a.bin"
                    {| w_offset := 1500; w_length := 8388608;
                       w_start := 1500; w_end := 8390107 |}
                    (sampleObject 1000 (Some "content")) "content" 1000
                    (or_introl eq_refl) eq_refl eq_refl eq_refl eq_refl eq_refl)
                 ltac:(discriminate)).
  - destruct (proj2 (deferred_reconciles_with_reported_size
                       (sampleRequest "GET" "/a.bin" (Some "bytes=0-")) sampleEnv b "a.bin"
                       {| w_offset := 0; w_length := 8388608;
                          w_start := 0; w_end := 8388607 |}
                       (sampleObject 1000 (Some "content")) "content" 1000
                       (or_introl eq_refl) eq_refl eq_refl eq_refl eq_refl eq_refl)
                    ltac:(reflexivity)) as (Hs & Hcr & Hcl & _).
    exact (conj Hs (conj Hcr Hcl)).
Defined.

(** When the size is not a number the window is reported as parsed, with
    [*] for the total. *)
Lemma Deferred_fetch_unknown_size
    (request : Request) (env : Deferred.Env) (b : Bucket)
    (key : string) (w : ByteWindow) (obj : R2Object) (content : string) :
  method request = "GET" ∨ method request = "HEAD" →
  normalizeKey (url_pathname request) = Some key →
  Deferred.parseRange (req_headers request !! "Range") (Deferred.getMaxRangeBytes env)
    = Some (Deferred.window w) →
  bucket_get b key (req_headers request) (Some (w_offset w, w_length w)) = Some obj →
  body obj = Some content →
  size obj = None →
  let resp := (run b (Deferred.fetch request env)).1 in
  status resp = 206
  ∧ headers resp !! "Content-Range"
    = Some ("bytes " +:+ NumberToString (w_start w) +:+ "-" +:+ NumberToString (w_end w)
            +:+ "/*")
  ∧ headers resp !! "Content-Length" = Some (NumberToString (w_end w - w_start w + 1)).
Proof.
  intros Hm Hk Hp Hget Hbody Hsize resp. subst resp.
  unfold Deferred.fetch. pass_guards Hm Hk. rewrite Hp.
  cbn [mbind Storage_mbind Storage_bind BUCKET_get run].
  rewrite Hget. cbn [Storage_bind]. rewrite Hbody, Hsize.
  cbn [present negb run fst status headers]. repeat split.
  - rewrite lookup_insert_ne by done. by rewrite lookup_insert_eq.
  - by rewrite lookup_insert_eq.
Qed.

(** ** The eager-size parser on the three forms of the grammar *)

Lemma Eager_parseRange_valid (h : option string) (size : Z) (r : Eager.RangeReq) :
  Eager.parseRange h size = Some r → Eager.hasValidRangeFormat h = true.
Proof.
  unfold Eager.parseRange, Eager.hasValidRangeFormat.
  destruct (truthy h); [|done]. cbn [negb andb].
  by destruct (rangeMatch _).
Qed.

Lemma Eager_hasValidRangeFormat_grammar (a b : string) :
  allDigits a = true → allDigits b = true →
  Eager.hasValidRangeFormat (Some ("bytes=" +:+ a +:+ "-" +:+ b)) = true.
Proof.
  intros Ha Hb. unfold Eager.hasValidRangeFormat.
  rewrite truthy_bytes. cbn [default from_option id andb].
  by rewrite rangeMatch_intro.
Qed.

Lemma Number_empty : Number "" = Num 0.
Proof. reflexivity. Qed.

Lemma Eager_parseRange_suffix (ks : string) (k size : Z) :
  allDigits ks = true → Number ks = Num k →
  Eager.parseRange (Some ("bytes=-" +:+ ks)) size =
  if k <=? 0 then None
  else Some (Eager.window {| w_offset := Z.max 0 (size - Z.min k size);
                             w_length := Z.min k size;
                             w_start := Z.max 0 (size - Z.min k size);
                             w_end := size - 1 |}).
Proof.
  intros Hd Hk. unfold Eager.parseRange.
  change ("bytes=-" +:+ ks) with ("bytes=" +:+ "" +:+ "-" +:+ ks).
  rewrite truthy_bytes. cbn [negb default from_option id].
  rewrite rangeMatch_intro by done. cbn [String.eqb andb].
  destruct (String.eqb ks "") eqn:E.
  - apply String.eqb_eq in E as ->. rewrite Number_empty in Hk. by injection Hk as <-.
  - by rewrite (finite_Number _ _ Hk).
Qed.

Lemma Eager_parseRange_open (ns : string) (n size : Z) :
  allDigits ns = true → ns ≠ "" → Number ns = Num n →
  Eager.parseRange (Some ("bytes=" +:+ ns +:+ "-")) size =
  if size <=? n then Some Eager.unsatisfiable
  else Some (Eager.window {| w_offset := n; w_length := size - n;
                             w_start := n; w_end := size - 1 |}).
Proof.
  intros Hd Hne Hn. unfold Eager.parseRange.
  rewrite truthy_bytes. cbn [negb default from_option id].
  change ("bytes=" +:+ ns +:+ "-") with ("bytes=" +:+ ns +:+ "-" +:+ "").
  rewrite rangeMatch_intro by done.
  rewrite (eqb_empty_false ns Hne), (finite_Number _ _ Hn), (Number_ltb_0 _ _ Hd Hn).
  reflexivity.
Qed.

Lemma Eager_parseRange_closed (ns ms : string) (n m size : Z) :
  allDigits ns = true → allDigits ms = true → ns ≠ "" → ms ≠ "" →
  Number ns = Num n → Number ms = Num m →
  Eager.parseRange (Some ("bytes=" +:+ ns +:+ "-" +:+ ms)) size =
  if m <? n then None
  else if size <=? n then Some Eager.unsatisfiable
  else Some (Eager.window {| w_offset := n; w_length := Z.min m (size - 1) - n + 1;
                             w_start := n; w_end := Z.min m (size - 1) |}).
Proof.
  intros Hdn Hdm Hnn Hnm Hn Hm. unfold Eager.parseRange.
  rewrite truthy_bytes. cbn [negb default from_option id].
  rewrite rangeMatch_intro by done.
  rewrite (eqb_empty_false ns Hnn), (eqb_empty_false ms Hnm).
  rewrite (finite_Number _ _ Hn), (finite_Number _ _ Hm), (Number_ltb_0 _ _ Hdn Hn).
  reflexivity.
Qed.

(** A start that is not finite makes the parser return [null], whatever
    follows the dash. *)
Lemma Eager_parseRange_overflow (ns es : string) (size : Z) :
  allDigits ns = true → allDigits es = true → ns ≠ "" →
  Number ns = Infinity →
  Eager.parseRange (Some ("bytes=" +:+ ns +:+ "-" +:+ es)) size = None.
Proof.
  intros Hdn Hde Hnn Hn. unfold Eager.parseRange.
  rewrite truthy_bytes. cbn [negb default from_option id].
  rewrite rangeMatch_intro by done.
  by rewrite (eqb_empty_false ns Hnn), Hn.
Qed.

(** A closed range whose end is before its start. *)
Lemma Eager_parseRange_reversed (ns ms : string) (size : Z) :
  allDigits ns = true → allDigits ms = true → ns ≠ "" → ms ≠ "" →
  decimalValue 0 ms < decimalValue 0 ns →
  Eager.parseRange (Some ("bytes=" +:+ ns +:+ "-" +:+ ms)) size = None.
Proof.
  intros Hdn Hdm Hnn Hnm Hlt.
  destruct (Number_cases ns) as [[Hn Hbn] | [Hn _]];
    [|by apply Eager_parseRange_overflow].
  destruct (Number_cases ms) as [[Hm _] | [_ Hbm]]; [|lia].
  rewrite (Eager_parseRange_closed ns ms _ _ size Hdn Hdm Hnn Hnm Hn Hm).
  by assert ((decimalValue 0 ms <? decimalValue 0 ns) = true) as -> by by apply Z.ltb_lt.
Qed.

(** A suffix range of length zero. *)
Lemma Eager_parseRange_suffix_zero (ks : string) (size : Z) :
  allDigits ks = true → decimalValue 0 ks ≤ 0 →
  Eager.parseRange (Some ("bytes=-" +:+ ks)) size = None.
Proof.
  intros Hd Hle.
  destruct (Number_cases ks) as [[Hk _] | [_ Hb]]; [|unfold DOUBLE_OVERFLOW in Hb; lia].
  rewrite (Eager_parseRange_suffix ks _ size Hd Hk).
  by assert ((decimalValue 0 ks <=? 0) = true) as -> by by apply Z.leb_le.
Qed.

Example Eager_parseRange_500_999 :
  Eager.parseRange (Some "bytes=500-999") 1000 =
  Some (Eager.window {| w_offset := 500; w_length := 500; w_start := 500; w_end := 999 |}).
Proof. reflexivity. Qed.

Example Eager_parseRange_clamped :
  Eager.parseRange (Some "bytes=990-5000") 1000 =
  Some (Eager.window {| w_offset := 990; w_length := 10; w_start := 990; w_end := 999 |}).
Proof. reflexivity. Qed.

Example Eager_parseRange_1500_open :
  Eager.parseRange (Some "bytes=1500-") 1000 = Some Eager.unsatisfiable.
Proof. reflexivity. Qed.

Example Eager_parseRange_both_absent : Eager.parseRange (Some "bytes=-") 1000 = None.
Proof. reflexivity. Qed.

(** ** The eager-size handler *)

Ltac run_storage :=
  cbn [mbind Storage_mbind Storage_bind BUCKET_get BUCKET_head run].

(** The handler after a successful probe, by what the parser returned. *)
Lemma Eager_run_unsatisfiable (request : Request) (b : Bucket) (key : string) (S : Z) :
  method request = "GET" ∨ method request = "HEAD" →
  normalizeKey (url_pathname request) = Some key →
  bucket_head b key = Some S →
  Eager.parseRange (req_headers request !! "Range") S = Some Eager.unsatisfiable →
  run b (Eager.fetch request)
  = ({| status := 416;
        headers := {["Content-Range" := "bytes */" +:+ NumberToString S]};
        resp_body := Some "Range Not Satisfiable" |},
     [CallHead key (Some S)]).
Proof.
  intros Hm Hk Hhead Hp. unfold Eager.fetch. pass_guards Hm Hk.
  rewrite (Eager_parseRange_valid _ _ _ Hp). run_storage.
  rewrite Hhead. cbn [Storage_bind]. rewrite Hp. reflexivity.
Qed.

Lemma Eager_run_window
    (request : Request) (b : Bucket) (key : string) (S : Z) (w : ByteWindow)
    (obj : R2Object) (content : string) :
  method request = "GET" ∨ method request = "HEAD" →
  normalizeKey (url_pathname request) = Some key →
  bucket_head b key = Some S →
  Eager.parseRange (req_headers request !! "Range") S = Some (Eager.window w) →
  bucket_get b key (req_headers request) (Some (w_offset w, w_length w)) = Some obj →
  body obj = Some content →
  (run b (Eager.fetch request)).1
  = {| status := 206;
       headers :=
         <["Content-Length" := NumberToString (w_length w)]>
           (<["Content-Range" :=
                "bytes " +:+ NumberToString (w_start w) +:+ "-"
                +:+ NumberToString (w_end w) +:+ "/" +:+ NumberToString S]>
              (withCommonHeaders obj ∅));
       resp_body := if String.eqb (method request) "HEAD" then None else Some content |}.
Proof.
  intros Hm Hk Hhead Hp Hget Hbody. unfold Eager.fetch. pass_guards Hm Hk.
  rewrite (Eager_parseRange_valid _ _ _ Hp). run_storage.
  rewrite Hhead. cbn [Storage_bind]. rewrite Hp. run_storage.
  rewrite Hget. cbn [Storage_bind]. rewrite Hbody. reflexivity.
Qed.

Lemma Eager_run_ignored (request : Request) (b : Bucket) (key : string) (S : Z) :
  method request = "GET" ∨ method request = "HEAD" →
  normalizeKey (url_pathname request) = Some key →
  Eager.hasValidRangeFormat (req_headers request !! "Range") = true →
  bucket_head b key = Some S →
  Eager.parseRange (req_headers request !! "Range") S = None →
  run b (Eager.fetch request)
  = ((run b (fullObject request key)).1,
     CallHead key (Some S) :: (run b (fullObject request key)).2).
Proof.
  intros Hm Hk Hv Hhead Hp. unfold Eager.fetch. pass_guards Hm Hk.
  rewrite Hv. run_storage. rewrite Hhead. cbn [Storage_bind]. rewrite Hp.
  by destruct (run b (fullObject request key)).
Qed.

(** The full-object path answers 404, 304 or 200, by what [get] gives. *)
Lemma fullObject_run (request : Request) (b : Bucket) (key : string) :
  (run b (fullObject request key)).1 =
  match bucket_get b key (req_headers request) None with
  | None => NotFound
  | Some obj =>
      if present (body obj)
      then {| status := 200;
              headers := <["Content-Length" := String_ (size obj)]> (withCommonHeaders obj ∅);
              resp_body := if String.eqb (method request) "HEAD" then None else body obj |}
      else NotModified obj
  end.
Proof.
  unfold fullObject. run_storage.
  destruct (bucket_get b key (req_headers request) None) as [obj|]; [|done].
  cbn [Storage_bind]. by destruct (present (body obj)).
Qed.

Lemma fullObject_calls (request : Request) (b : Bucket) (key : string) :
  (run b (fullObject request key)).2
  = [CallGet key (req_headers request) None (bucket_get b key (req_headers request) None)].
Proof.
  unfold fullObject. run_storage.
  destruct (bucket_get b key (req_headers request) None) as [obj|]; [|done].
  cbn [Storage_bind]. by destruct (present (body obj)).
Qed.

Lemma fullObject_status (request : Request) (b : Bucket) (key : string) :
  status (run b (fullObject request key)).1 ∈ [200; 304; 404].
Proof.
  rewrite fullObject_run.
  destruct (bucket_get _ _ _ _) as [obj|]; [|set_solver].
  destruct (present _); set_solver.
Qed.

(** C2. Eager-size variant: for [bytes=-K] with [K] finite and positive
    and a known size [S], the window has length [min(K, S)], start
    [max(0, S - length)] and end [S - 1]; for [S = 50] and [bytes=-100] the
    response is 206 with [Content-Range: bytes 0-49/50] and
    [Content-Length: 50]. *)
Theorem eager_suffix_window (ks : string) (k S : Z) :
  allDigits ks = true → Number ks = Num k → 0 < k →
  (let length := Z.min k S in
   let start := Z.max 0 (S - length) in
   Eager.parseRange (Some ("bytes=-" +:+ ks)) S
   = Some (Eager.window {| w_offset := start; w_length := length;
                           w_start := start; w_end := S - 1 |}))
  ∧ ∀ (request : Request) (b : Bucket) (key : string) (obj : R2Object) (content : string),
      method request = "GET" ∨ method request = "HEAD" →
      normalizeKey (url_pathname request) = Some key →
      req_headers request !! "Range" = Some "bytes=-100" →
      bucket_head b key = Some 50 →
      bucket_get b key (req_headers request) (Some (0, 50)) = Some obj →
      body obj = Some content →
      let resp := (run b (Eager.fetch request)).1 in
      status resp = 206
      ∧ headers resp !! "Content-Range" = Some "bytes 0-49/50"
      ∧ headers resp !! "Content-Length" = Some "50".
Proof.
  intros Hd Hk Hpos. split.
  - cbv zeta. rewrite (Eager_parseRange_suffix ks k S Hd Hk).
    by assert ((k <=? 0) = false) as -> by by apply Z.leb_gt.
  - intros request b key obj content Hm Hkey Hh Hhead Hget Hbody resp. subst resp.
    rewrite (Eager_run_window request b key 50
               {| w_offset := 0; w_length := 50; w_start := 0; w_end := 49 |}
               obj content Hm Hkey Hhead); [| by rewrite Hh | done | done].
    cbn [status headers]. repeat split.
    + rewrite lookup_insert_ne by done. by rewrite lookup_insert_eq.
    + by rewrite lookup_insert_eq.
Qed.

Lemma eager_suffix_window_witness :
  Eager.parseRange (Some "bytes=-100") 50
  = Some (Eager.window {| w_offset := 0; w_length := 50; w_start := 0; w_end := 49 |})
  ∧ let resp := (run (sampleBucket (sampleObject 50 (Some "content")))
                   (Eager.fetch (sampleRequest "GET" "/a.bin" (Some "bytes=-100")))).1 in
    status resp = 206
    ∧ headers resp !! "Content-Range" = Some "bytes 0-49/50"
    ∧ headers resp !! "Content-Length" = Some "50".
Proof.
  destruct (eager_suffix_window "100" 100 50 eq_refl eq_refl ltac:(reflexivity)) as [Hp Hf].
  split; [exact Hp|].
  exact (Hf (sampleRequest "GET" "/a.bin" (Some "bytes=-100"))
            (sampleBucket (sampleObject 50 (Some "content"))) "a.bin"
            (sampleObject 50 (Some "content")) "content"
            (or_introl eq_refl) eq_refl eq_refl eq_refl eq_refl eq_refl).
Defined.

(** C3, as stated, fails: [bytes=5-2] is of the grammar and has its end
    before its start, and the eager-size handler answers it 200 with the
    whole object, as it does [bytes=-0]. *)
Lemma eager_invalid_range_not_rejected :
  let b := sampleBucket (sampleObject 50 (Some "content")) in
  Eager.hasValidRangeFormat (Some "bytes=5-2") = true
  ∧ Eager.parseRange (Some "bytes=5-2") 50 = None
  ∧ (run b (Eager.fetch (sampleRequest "GET" "/a.txt" (Some "bytes=5-2")))).1
    = {| status := 200;
         headers := {[ "Accept-Ranges" := "bytes";
                       "Cache-Control" := "public, max-age=3600";
                       "Content-Length" := "50";
                       "ETag" := "v1";
                       "Last-Modified" := "Thu, 01 Jan 2026 00:00:00 GMT" ]};
         resp_body := Some "content" |}
  ∧ status (run b (Eager.fetch (sampleRequest "GET" "/a.txt" (Some "bytes=-0")))).1 = 200.
Proof. repeat split; vm_compute; reflexivity. Qed.

(** C3, amended. Eager-size variant: a [Range] value of the grammar that is
    invalid - closed form [bytes=N-M] with [M < N] and [N] at most 2^53, so
    that both convert exactly, or suffix form [bytes=-K] with [K ≤ 0] - is
    ignored once the metadata probe has given the size: the parser returns
    [null], in double arithmetic as in exact arithmetic, and the response
    is the one of the full-object path (200 with [Content-Length] the
    object's size when [get] returns a body, else 304 or 404), after the
    probe and one unranged [get]. *)
Theorem eager_invalid_range_ignored
    (request : Request) (b : Bucket) (key h : string) (S : Z) :
  method request = "GET" ∨ method request = "HEAD" →
  normalizeKey (url_pathname request) = Some key →
  req_headers request !! "Range" = Some h →
  bucket_head b key = Some S →
  (∃ ns ms, allDigits ns = true ∧ allDigits ms = true ∧ ns ≠ "" ∧ ms ≠ ""
            ∧ decimalValue 0 ms < decimalValue 0 ns
            ∧ decimalValue 0 ns ≤ SAFE_LIMIT
            ∧ h = "bytes=" +:+ ns +:+ "-" +:+ ms)
  ∨ (∃ ks, allDigits ks = true ∧ ks ≠ "" ∧ decimalValue 0 ks ≤ 0
           ∧ h = "bytes=-" +:+ ks) →
  let resp := (run b (Eager.fetch request)).1 in
  Rounded.Eager_parseRange (Some h) S = None
  ∧ Eager.parseRange (Some h) S = None
  ∧ resp = (run b (fullObject request key)).1
  ∧ status resp ∈ [200; 304; 404]
  ∧ (run b (Eager.fetch request)).2
    = [CallHead key (Some S);
       CallGet key (req_headers request) None (bucket_get b key (req_headers request) None)]
  ∧ ∀ obj content,
      bucket_get b key (req_headers request) None = Some obj →
      body obj = Some content →
      status resp = 200 ∧ headers resp !! "Content-Length" = Some (String_ (size obj)).
Proof.
  intros Hm Hk Hh Hhead Hbad resp.
  assert (Eager.hasValidRangeFormat (Some h) = true
          ∧ Eager.parseRange (Some h) S = None
          ∧ Rounded.Eager_parseRange (Some h) S = None) as (Hv & Hp & Hr).
  { destruct Hbad as [(ns & ms & Hdn & Hdm & Hnn & Hnm & Hlt & Hsafe & ->)
                     | (ks & Hd & Hne & Hle & ->)].
    - split; [by apply Eager_hasValidRangeFormat_grammar|].
      split; [by apply Eager_parseRange_reversed|].
      by apply Rounded_Eager_parseRange_reversed.
    - split; [by apply (Eager_hasValidRangeFormat_grammar "" ks)|].
      split; [by apply Eager_parseRange_suffix_zero|].
      by apply Rounded_Eager_parseRange_suffix_zero. }
  subst resp. rewrite (Eager_run_ignored request b key S) by (by rewrite ?Hh).
  cbn [fst snd]. split; [done|]. split; [done|]. split; [done|].
  split; [apply fullObject_status|]. split.
  - by rewrite fullObject_calls.
  - intros obj content Hget Hbody. rewrite fullObject_run, Hget, Hbody.
    cbn [present status headers]. by rewrite lookup_insert_eq.
Qed.

Lemma eager_invalid_range_ignored_witness :
  let b := sampleBucket (sampleObject 50 (Some "content")) in
  let resp := (run b (Eager.fetch (sampleRequest "GET" "/a.txt" (Some "bytes=5-2")))).1 in
  Eager.parseRange (Some "bytes=5-2") 50 = None
  ∧ status resp = 200
  ∧ headers resp !! "Content-Length" = Some "50".
Proof.
  intros b resp.
  destruct (eager_invalid_range_ignored
              (sampleRequest "GET" "/a.txt" (Some "bytes=5-2")) b "a.txt" "bytes=5-2" 50
              (or_introl eq_refl) eq_refl eq_refl eq_refl)
    as (_ & Hp & _ & _ & _ & Hok).
  - left. exists "5", "2". repeat split; (reflexivity || discriminate).
  - split; [exact Hp|].
    exact (Hok (sampleObject 50 (Some "content")) "content" eq_refl eq_refl).
Defined.

(** C6, as stated, fails: the start 10^309 is at or beyond every size, and
    converts to [Infinity]; the eager-size parser returns [null] for it and
    the handler answers 200 with the whole object. *)
Lemma eager_open_ended_overflow_not_rejected :
  let b := sampleBucket (sampleObject 50 (Some "content")) in
  let h := "bytes=" +:+ tenTo309 +:+ "-" in
  allDigits tenTo309 = true
  ∧ 50 ≤ decimalValue 0 tenTo309
  ∧ Number tenTo309 = Infinity
  ∧ Eager.parseRange (Some h) 50 = None
  ∧ status (run b (Eager.fetch (sampleRequest "GET" "/a.txt" (Some h)))).1 = 200.
Proof. repeat split; vm_compute; first [reflexivity | discriminate]. Qed.

(** C6, amended. Eager-size variant: for an open-ended range [bytes=N-]
    whose [N] converts to a finite number, and a known size [S], when
    [N ≥ S] the response is 416 with [Content-Range: bytes */S]; otherwise
    the window ends at [S - 1] and has length [S - N]. *)
Theorem eager_open_ended
    (request : Request) (b : Bucket) (key ns : string) (n S : Z) :
  method request = "GET" ∨ method request = "HEAD" →
  normalizeKey (url_pathname request) = Some key →
  allDigits ns = true → ns ≠ "" → Number ns = Num n →
  req_headers request !! "Range" = Some ("bytes=" +:+ ns +:+ "-") →
  bucket_head b key = Some S →
  (S ≤ n →
     (run b (Eager.fetch request)).1
     = {| status := 416;
          headers := {["Content-Range" := "bytes */" +:+ NumberToString S]};
          resp_body := Some "Range Not Satisfiable" |})
  ∧ (n < S →
     Eager.parseRange (req_headers request !! "Range") S
     = Some (Eager.window {| w_offset := n; w_length := S - n;
                             w_start := n; w_end := S - 1 |})).
Proof.
  intros Hm Hk Hd Hne Hn Hh Hhead.
  pose proof (Eager_parseRange_open ns n S Hd Hne Hn) as Hp.
  split.
  - intros Hge. apply Z.leb_le in Hge. rewrite Hge in Hp.
    rewrite (Eager_run_unsatisfiable request b key S); [done..|]. by rewrite Hh.
  - intros Hlt. apply Z.leb_gt in Hlt. rewrite Hlt in Hp. by rewrite Hh.
Qed.

Lemma eager_open_ended_witness :
  let b := sampleBucket (sampleObject 1000 (Some "content")) in
  (run b (Eager.fetch (sampleRequest "GET" "/a.bin" (Some "bytes=1500-")))).1
  = {| status := 416; headers := {["Content-Range" := "bytes */1000"]};
       resp_body := Some "Range Not Satisfiable" |}
  ∧ Eager.parseRange (Some "bytes=200-") 1000
    = Some (Eager.window {| w_offset := 200; w_length := 800;
                            w_start := 200; w_end := 999 |}).
Proof.
  intros b. split.
  - exact (proj1 (eager_open_ended
                    (sampleRequest "GET" "/a.bin" (Some "bytes=1500-")) b "a.bin" "1500"
                    1500 1000 (or_introl eq_refl) eq_refl eq_refl ltac:(discriminate)
                    eq_refl eq_refl eq_refl)
                 ltac:(discriminate)).
  - exact (proj2 (eager_open_ended
                    (sampleRequest "GET" "/a.bin" (Some "bytes=200-")) b "a.bin" "200"
                    200 1000 (or_introl eq_refl) eq_refl eq_refl ltac:(discriminate)
                    eq_refl eq_refl eq_refl)
                 ltac:(reflexivity)).
Defined.

(** ** The window invariant *)

(** What the data model asks of a resolved window. *)
Lemma Deferred_window_invariant (h : option string) (maxBytes : Z) (w : ByteWindow) :
  1 ≤ maxBytes →
  Deferred.parseRange h maxBytes = Some (Deferred.window w) →
  0 ≤ w_start w ≤ w_end w
  ∧ w_offset w = w_start w
  ∧ w_length w = w_end w - w_start w + 1
  ∧ 1 ≤ w_length w ≤ maxBytes.
Proof.
  intros Hmax. unfold Deferred.parseRange.
  destruct (negb (truthy h)); [done|].
  destruct (rangeMatch _) as [[startStr endStr]|]; [|done].
  destruct (_ && _); [done|]. destruct (String.eqb startStr ""); [done|].
  destruct (finite (Number startStr)) as [start|]; [|done].
  destruct (start <? 0) eqn:Hs; [done|]. apply Z.ltb_ge in Hs.
  destruct (String.eqb endStr "").
  - rewrite Z.ltb_irrefl. intros [= <-]. cbn. lia.
  - destruct (finite (Number endStr)) as [end_|]; [|done].
    destruct (end_ <? start) eqn:He; [done|]. apply Z.ltb_ge in He.
    destruct (maxBytes <? _) eqn:Hl; [done|]. apply Z.ltb_ge in Hl.
    intros [= <-]. cbn. lia.
Qed.

Lemma Eager_window_invariant (h : option string) (size : Z) (w : ByteWindow) :
  1 ≤ size →
  Eager.parseRange h size = Some (Eager.window w) →
  0 ≤ w_start w ≤ w_end w
  ∧ w_offset w = w_start w
  ∧ w_length w = w_end w - w_start w + 1
  ∧ 1 ≤ w_length w
  ∧ w_end w ≤ size - 1.
Proof.
  intros Hsize. unfold Eager.parseRange.
  destruct (negb (truthy h)); [done|].
  destruct (rangeMatch _) as [[startStr endStr]|]; [|done].
  destruct (_ && _); [done|]. destruct (String.eqb startStr "").
  { destruct (finite (Number endStr)) as [suffix|]; [|done].
    destruct (suffix <=? 0) eqn:Hs; [done|]. apply Z.leb_gt in Hs.
    intros [= <-]. cbn. lia. }
  destruct (finite (Number startStr)) as [start|]; [|done].
  destruct (start <? 0) eqn:Hs; [done|]. apply Z.ltb_ge in Hs.
  destruct (String.eqb endStr "").
  - destruct (size <=? start) eqn:Hu; [done|]. apply Z.leb_gt in Hu.
    intros [= <-]. cbn. lia.
  - destruct (finite (Number endStr)) as [end_|]; [|done].
    destruct (end_ <? start) eqn:He; [done|]. apply Z.ltb_ge in He.
    destruct (size <=? start) eqn:Hu; [done|]. apply Z.leb_gt in Hu.
    intros [= <-]. cbn. lia.
Qed.

(** C5. The eager-size parser on a suffix range against an empty object:
    the window it resolves has length 0 and its end, -1, before its start,
    and the handler answers 206 with [Content-Range: bytes 0--1/0]; the
    open-ended and closed forms are unsatisfiable against the same
    object. *)
Theorem eager_suffix_window_on_empty_object :
  let b := sampleBucket (sampleObject 0 (Some "")) in
  let resp := (run b (Eager.fetch (sampleRequest "GET" "/empty.txt" (Some "bytes=-5")))).1 in
  Eager.parseRange (Some "bytes=-5") 0
  = Some (Eager.window {| w_offset := 0; w_length := 0; w_start := 0; w_end := -1 |})
  ∧ status resp = 206
  ∧ headers resp !! "Content-Range" = Some "bytes 0--1/0"
  ∧ headers resp !! "Content-Length" = Some "0"
  ∧ Eager.parseRange (Some "bytes=0-") 0 = Some Eager.unsatisfiable
  ∧ Eager.parseRange (Some "bytes=0-4") 0 = Some Eager.unsatisfiable.
Proof. repeat split; vm_compute; reflexivity. Qed.

(** ** Keys: what the string tests decide *)

Lemma endsWith_spec (s suf : string) :
  endsWith s suf = true ↔ ∃ t, s = t +:+ suf.
Proof.
  induction s as [|c s IH]; cbn [endsWith].
  - rewrite orb_false_r, String.eqb_eq. split.
    + intros <-. by exists "".
    + intros [t Ht]. destruct t; [done|discriminate].
  - rewrite orb_true_iff, String.eqb_eq, IH. split.
    + intros [<- | [t ->]]; [by exists ""|by exists (String c t)].
    + intros [[|c' t] Ht]; [by left|]. right. injection Ht as -> ->. by exists t.
Qed.

Lemma startsWith_spec (s p : string) :
  startsWith s p = true ↔ ∃ t, s = p +:+ t.
Proof.
  unfold startsWith. split.
  - destruct (stripPrefix p s) as [t|] eqn:H; [|done]. intros _. exists t.
    by apply stripPrefix_Some.
  - intros [t ->]. by rewrite stripPrefix_app.
Qed.

Lemma includes_spec (s sub : string) :
  includes s sub = true ↔ ∃ a t, s = a +:+ sub +:+ t.
Proof.
  induction s as [|c s IH]; cbn [includes].
  - rewrite orb_false_r, startsWith_spec. split.
    + intros [t Ht]. by exists "", t.
    + intros (a & t & Ht). destruct a; [by exists t|discriminate].
  - rewrite orb_true_iff, startsWith_spec, IH. split.
    + intros [[t Ht] | (a & t & ->)]; [by exists "", t|by exists (String c a), t].
    + intros ([|c' a] & t & Ht); [left; by exists t|].
      right. injection Ht as -> ->. by exists a, t.
Qed.

Lemma normalizeKey_URIError (pathname : string) :
  decodeURIComponent pathname = None → normalizeKey pathname = None.
Proof. unfold normalizeKey. by intros ->. Qed.

(** The cases of [normalizeKey], in the order the code takes them. *)
Lemma normalizeKey_cases (pathname decoded : string) :
  decodeURIComponent pathname = Some decoded →
  let key := stripLeadingSlashes decoded in
  (key = "" → normalizeKey pathname = Some "index.html")
  ∧ (key ≠ "" → (∃ t, key = t +:+ "/") →
     normalizeKey pathname = Some (key +:+ "index.html"))
  ∧ (key ≠ "" → ¬ (∃ t, key = t +:+ "/") →
     (∃ a t, key = a +:+ ".." +:+ t) ∨ (∃ a t, key = a +:+ NUL +:+ t) →
     normalizeKey pathname = None)
  ∧ (key ≠ "" → ¬ (∃ t, key = t +:+ "/") →
     ¬ (∃ a t, key = a +:+ ".." +:+ t) → ¬ (∃ a t, key = a +:+ NUL +:+ t) →
     normalizeKey pathname = Some key).
Proof.
  intros Hd key. unfold normalizeKey. rewrite Hd. fold key. cbv zeta.
  repeat split.
  - by intros ->.
  - intros Hne Hs. rewrite (eqb_empty_false _ Hne).
    by apply endsWith_spec in Hs as ->.
  - intros Hne Hs Hbad. rewrite (eqb_empty_false _ Hne).
    destruct (endsWith key "/") eqn:E; [by apply endsWith_spec in E|].
    assert (includes key ".." || includes key NUL = true) as ->; [|done].
    apply orb_true_iff. by rewrite !includes_spec.
  - intros Hne Hs Hdd Hnul. rewrite (eqb_empty_false _ Hne).
    destruct (endsWith key "/") eqn:E; [by apply endsWith_spec in E|].
    assert (includes key ".." || includes key NUL = false) as ->; [|done].
    apply orb_false_iff. split; apply not_true_is_false; by rewrite includes_spec.
Qed.

(** C8. [normalizeKey] on keys that end in [/] and hold [..] or U+0000:
    the trailing-slash case returns before the traversal test is reached,
    so the key comes back with [index.html] appended instead of being
    rejected. *)
Theorem normalizeKey_trailing_slash_skips_traversal_test :
  normalizeKey "/a%2F..%2F" = Some "a/../index.html"
  ∧ normalizeKey "/..a/" = Some "..a/index.html"
  ∧ normalizeKey "/%00/" = Some (NUL +:+ "/index.html")
  ∧ includes "a/../" ".." = true
  ∧ normalizeKey "/a%2F..%2Fb" = None.
Proof. repeat split; vm_compute; reflexivity. Qed.

(** ** HEAD against GET *)

Lemma mirrors_run (b : Bucket) (p q : Storage Response) :
  mirrors p q →
  headOf (run b p).1 (run b q).1 ∧ (run b q).2 = (run b p).2.
Proof.
  induction 1 as [get head H | key k1 k2 _ IH | key onlyIf range k1 k2 _ IH]; cbn [run].
  - done.
  - specialize (IH (bucket_head b key)).
    destruct (run b (k1 _)), (run b (k2 _)). cbn [fst snd] in *.
    destruct IH as [? ->]. done.
  - specialize (IH (bucket_get b key onlyIf range)).
    destruct (run b (k1 _)), (run b (k2 _)). cbn [fst snd] in *.
    destruct IH as [? ->]. done.
Qed.

Lemma headOf_error (r : Response) : bodiless (status r) = false → headOf r r.
Proof. intros H. unfold headOf. by rewrite H. Qed.

Lemma headOf_NotModified (obj : R2Object) : headOf (NotModified obj) (NotModified obj).
Proof. done. Qed.

(** Closes [mirrors] goals over the branches two handlers share. *)
Ltac mirror_branches :=
  repeat first
    [ apply mirrors_Ret; first [ by apply headOf_error | by apply headOf_NotModified | done ]
    | apply mirrors_BucketHead; intros ?
    | apply mirrors_BucketGet; intros ?
    | match goal with
      | |- mirrors (if ?c then _ else _) _ => destruct c
      | |- mirrors (match ?x with _ => _ end) _ => destruct x
      end ].

Lemma fullObject_mirrors (request : Request) (key : string) :
  mirrors (fullObject (withMethod "GET" request) key)
          (fullObject (withMethod "HEAD" request) key).
Proof.
  unfold fullObject. cbn [withMethod method req_headers]. run_storage.
  mirror_branches.
Qed.

Lemma Deferred_fetch_mirrors (request : Request) (env : Deferred.Env) :
  mirrors (Deferred.fetch (withMethod "GET" request) env)
          (Deferred.fetch (withMethod "HEAD" request) env).
Proof.
  unfold Deferred.fetch. cbn [withMethod method url_pathname req_headers].
  change (negb (String.eqb "GET" "GET") && negb (String.eqb "GET" "HEAD")) with false.
  change (negb (String.eqb "HEAD" "GET") && negb (String.eqb "HEAD" "HEAD")) with false.
  cbv zeta. cbn match.
  destruct (negb (truthy (normalizeKey (url_pathname request)))); [mirror_branches|].
  destruct (Deferred.parseRange _ _) as [[| |w]|].
  - destruct (truthy _); [mirror_branches|apply fullObject_mirrors].
  - destruct (truthy _); [mirror_branches|apply fullObject_mirrors].
  - run_storage. mirror_branches.
  - apply fullObject_mirrors.
Qed.

Lemma Eager_fetch_mirrors (request : Request) :
  mirrors (Eager.fetch (withMethod "GET" request))
          (Eager.fetch (withMethod "HEAD" request)).
Proof.
  unfold Eager.fetch. cbn [withMethod method url_pathname req_headers].
  change (negb (String.eqb "GET" "GET") && negb (String.eqb "GET" "HEAD")) with false.
  change (negb (String.eqb "HEAD" "GET") && negb (String.eqb "HEAD" "HEAD")) with false.
  cbv zeta. cbn match.
  destruct (negb (truthy (normalizeKey (url_pathname request)))); [mirror_branches|].
  destruct (Eager.hasValidRangeFormat _); [|apply fullObject_mirrors].
  run_storage. apply mirrors_BucketHead. intros [size|]; [|mirror_branches].
  cbn [Storage_bind].
  destruct (Eager.parseRange _ _) as [[|w]|].
  - mirror_branches.
  - run_storage. mirror_branches.
  - apply fullObject_mirrors.
Qed.

(** ** The statuses of the responses *)

Lemma always_run (P : Response → Prop) (b : Bucket) (p : Storage Response) :
  always P p → P (run b p).1.
Proof.
  induction 1 as [r H | key k _ IH | key onlyIf range k _ IH]; cbn [run].
  - done.
  - specialize (IH (bucket_head b key)). by destruct (run b (k _)).
  - specialize (IH (bucket_get b key onlyIf range)). by destruct (run b (k _)).
Qed.

(** Closes [always knownStatus] goals branch by branch. *)
Ltac status_branches :=
  repeat first
    [ apply always_Ret; unfold knownStatus; cbn [status]; by repeat constructor
    | apply always_BucketHead; intros ?
    | apply always_BucketGet; intros ?
    | match goal with
      | |- always _ (if ?c then _ else _) => destruct c
      | |- always _ (match ?x with _ => _ end) => destruct x
      end ].

Lemma fullObject_knownStatus (request : Request) (key : string) :
  always knownStatus (fullObject request key).
Proof. unfold fullObject. run_storage. status_branches. Qed.

Lemma Deferred_fetch_knownStatus (request : Request) (env : Deferred.Env) :
  method request = "GET" ∨ method request = "HEAD" →
  always knownStatus (Deferred.fetch request env).
Proof.
  intros Hm. unfold Deferred.fetch. rewrite (method_guard _ Hm). cbv zeta.
  destruct (negb (truthy (normalizeKey (url_pathname request)))); [status_branches|].
  destruct (Deferred.parseRange _ _) as [[| |w]|].
  - destruct (truthy _); [status_branches|apply fullObject_knownStatus].
  - destruct (truthy _); [status_branches|apply fullObject_knownStatus].
  - run_storage. status_branches.
  - apply fullObject_knownStatus.
Qed.

Lemma Eager_fetch_knownStatus (request : Request) :
  method request = "GET" ∨ method request = "HEAD" →
  always knownStatus (Eager.fetch request).
Proof.
  intros Hm. unfold Eager.fetch. rewrite (method_guard _ Hm). cbv zeta.
  destruct (negb (truthy (normalizeKey (url_pathname request)))); [status_branches|].
  destruct (Eager.hasValidRangeFormat _); [|apply fullObject_knownStatus].
  run_storage. apply always_BucketHead. intros [size|]; [|status_branches].
  cbn [Storage_bind].
  destruct (Eager.parseRange _ _) as [[|w]|].
  - status_branches.
  - run_storage. status_branches.
  - apply fullObject_knownStatus.
Qed.

Lemma withMethod_same (request : Request) : withMethod (method request) request = request.
Proof. by destruct request. Qed.

(** C9, as stated, fails: the HEAD response to a path that does not
    normalize has the body [Bad Request], and the HEAD response for a
    missing object the body [Not Found], in both variants. *)
Lemma head_error_responses_keep_body :
  let missing : Bucket := {| bucket_head := λ _, None; bucket_get := λ _ _ _, None |} in
  (run missing (Deferred.fetch (sampleRequest "HEAD" "/a/b/../c" None) sampleEnv)).1
  = {| status := 400; headers := ∅; resp_body := Some "Bad Request" |}
  ∧ (run missing (Eager.fetch (sampleRequest "HEAD" "/a/b/../c" None))).1
    = {| status := 400; headers := ∅; resp_body := Some "Bad Request" |}
  ∧ (run missing (Deferred.fetch (sampleRequest "HEAD" "/a.txt" None) sampleEnv)).1
    = {| status := 404; headers := ∅; resp_body := Some "Not Found" |}
  ∧ (run missing (Eager.fetch (sampleRequest "HEAD" "/a.txt" (Some "bytes=0-9")))).1
    = {| status := 404; headers := ∅; resp_body := Some "Not Found" |}.
Proof. repeat split; vm_compute; reflexivity. Qed.

(** C9, amended. In both variants a HEAD request makes the same storage
    calls and gets the same status and headers as the GET request on the
    same path with the same headers against the same bucket; its response
    has no body when the outcome is 200, 206 or 304, and has the body of
    the GET response (the fixed text of the error) when the outcome is 400,
    404 or 416. *)
Theorem head_mirrors_get (request : Request) (env : Deferred.Env) (b : Bucket) :
  method request = "HEAD" →
  let get := withMethod "GET" request in
  (∀ (head_resp get_resp : Response) (head_calls get_calls : list Call),
     (run b (Deferred.fetch request env) = (head_resp, head_calls)
      ∧ run b (Deferred.fetch get env) = (get_resp, get_calls))
     ∨ (run b (Eager.fetch request) = (head_resp, head_calls)
        ∧ run b (Eager.fetch get) = (get_resp, get_calls)) →
     status head_resp = status get_resp
     ∧ headers head_resp = headers get_resp
     ∧ head_calls = get_calls
     ∧ (status get_resp ∈ [200; 206; 304] → resp_body head_resp = None)
     ∧ (status get_resp ∈ [400; 404; 416] → resp_body head_resp = resp_body get_resp))
  ∧ knownStatus (run b (Deferred.fetch request env)).1
  ∧ knownStatus (run b (Eager.fetch request)).1.
Proof.
  intros Hhead get.
  assert (request = withMethod "HEAD" request) as Hreq
    by by rewrite <- Hhead, withMethod_same.
  split.
  - intros head_resp get_resp head_calls get_calls Hrun.
    assert (headOf get_resp head_resp ∧ head_calls = get_calls) as [(Hs & Hh & Hb) Hc].
    { destruct Hrun as [[H1 H2] | [H1 H2]].
      - pose proof (mirrors_run b _ _ (Deferred_fetch_mirrors request env)) as H.
        rewrite <- Hreq in H. fold get in H. by rewrite H1, H2 in H.
      - pose proof (mirrors_run b _ _ (Eager_fetch_mirrors request)) as H.
        rewrite <- Hreq in H. fold get in H. by rewrite H1, H2 in H. }
    repeat split; [done..| |].
    + intros Hin. rewrite Hb.
      assert (bodiless (status get_resp) = true) as ->; [|done].
      unfold bodiless. set_unfold. destruct Hin as [-> | [-> | [-> | []]]]; done.
    + intros Hin. rewrite Hb.
      assert (bodiless (status get_resp) = false) as ->; [|done].
      unfold bodiless. set_unfold. destruct Hin as [-> | [-> | [-> | []]]]; done.
  - split; apply always_run.
    + apply Deferred_fetch_knownStatus. by right.
    + apply Eager_fetch_knownStatus. by right.
Qed.

Lemma head_mirrors_get_witness :
  let b := sampleBucket (sampleObject 1000 (Some "content")) in
  let head := (run b (Eager.fetch (sampleRequest "HEAD" "/a.bin" (Some "bytes=0-9")))).1 in
  let get := (run b (Eager.fetch (sampleRequest "GET" "/a.bin" (Some "bytes=0-9")))).1 in
  status head = 206 ∧ status get = 206 ∧ headers head = headers get
  ∧ resp_body head = None ∧ resp_body get = Some "content".
Proof.
  intros b head get.
  destruct (proj1 (head_mirrors_get (sampleRequest "HEAD" "/a.bin" (Some "bytes=0-9"))
                     sampleEnv b eq_refl)
              head get
              (run b (Eager.fetch (sampleRequest "HEAD" "/a.bin" (Some "bytes=0-9")))).2
              (run b (Eager.fetch (sampleRequest "GET" "/a.bin" (Some "bytes=0-9")))).2
              (or_intror (conj eq_refl eq_refl)))
    as (Hs & Hh & _ & Hb & _).
  assert (status get = 206) as Hg by reflexivity.
  refine (conj _ (conj Hg (conj Hh (conj (Hb _) eq_refl)))).
  - by rewrite Hs.
  - rewrite Hg. by repeat constructor.
Defined.

(** ** Not-modified responses *)











(** * Further properties of the code *)

(** ** The configured maximum *)

(** X1. [getMaxRangeBytes] always gives a positive length: the configured
    value when it is a finite positive number, and the default of 8 MiB in
    every other case (missing, not a number, infinite, zero or negative). *)
Theorem getMaxRangeBytes_positive_or_default (env : Deferred.Env) :
  0 < Deferred.getMaxRangeBytes env
  ∧ (Deferred.RANGE_MAX_BYTES env = Num (Deferred.getMaxRangeBytes env)
     ∨ Deferred.getMaxRangeBytes env = 8388608
       ∧ ∀ v, Deferred.RANGE_MAX_BYTES env = Num v → v ≤ 0)
  ∧ ∀ v, Deferred.RANGE_MAX_BYTES env = Num v → 0 < v →
         Deferred.getMaxRangeBytes env = v.
Proof.
  split; [apply Deferred_getMaxRangeBytes_pos|].
  unfold Deferred.getMaxRangeBytes.
  destruct (Deferred.RANGE_MAX_BYTES env) as [v| | |]; cbn [finite].
  - destruct (0 <? v) eqn:E.
    + split; [by left|]. by intros ? [= <-].
    + apply Z.ltb_ge in E. split.
      * right. split; [done|]. by intros ? [= <-].
      * intros ? [= <-]. lia.
  - split; [by right|done].
  - split; [by right|done].
  - split; [by right|done].
Qed.

(** ** Windows *)

(** X2. Every window the deferred-size parser resolves under an integral
    maximum, in double arithmetic as in exact arithmetic, starts at or after
    0, has [offset = start] and a length above 0 and at most the maximum;
    when the start plus the maximum is at most 2^53 and the end below 2^53,
    where the additions of the code are exact, it also ends at or after its
    start and has [length = end - start + 1]. *)
Theorem deferred_window_capped (h : option string) (maxBytes : Z) (w : ByteWindow) :
  0 < maxBytes →
  Rounded.Deferred_parseRange h maxBytes = Some (Deferred.window w)
  ∨ Deferred.parseRange h maxBytes = Some (Deferred.window w) →
  0 ≤ w_start w
  ∧ w_offset w = w_start w
  ∧ 0 < w_length w ≤ maxBytes
  ∧ (w_start w + maxBytes ≤ SAFE_LIMIT → w_end w < SAFE_LIMIT →
     w_start w ≤ w_end w ∧ w_length w = w_end w - w_start w + 1).
Proof.
  intros Hmax [Hr | He].
  - revert Hr. unfold Rounded.Deferred_parseRange.
    destruct (negb (truthy h)); [done|].
    destruct (rangeMatch _) as [[startStr endStr]|]; [|done].
    destruct (_ && _); [done|]. destruct (String.eqb startStr ""); [done|].
    destruct (finite (Rounded.Number startStr)) as [start|]; [|done].
    destruct (start <? 0) eqn:Hs; [done|]. apply Z.ltb_ge in Hs.
    destruct (String.eqb endStr "").
    + cbv zeta. rewrite Z.ltb_irrefl. intros [= <-].
      cbn [w_start w_offset w_length w_end].
      split; [done|]. split; [done|]. split; [lia|].
      intros Hsafe _. pose proof SAFE_LIMIT_pos.
      rewrite Rounded_add_exact by lia. rewrite Rounded_sub_exact by lia. lia.
    + destruct (finite (Rounded.Number endStr)) as [end_|]; [|done].
      destruct (end_ <? start) eqn:He; [done|]. apply Z.ltb_ge in He. cbv zeta.
      destruct (maxBytes <? _) eqn:Hl; [done|]. apply Z.ltb_ge in Hl.
      intros [= <-]. cbn [w_start w_offset w_length w_end].
      pose proof (Rounded_round_nonneg (end_ - start) ltac:(lia)) as Hd.
      pose proof (Rounded_round_pos (Rounded.sub end_ start + 1)
                    ltac:(unfold Rounded.sub; lia)) as Hp.
      fold (Rounded.add (Rounded.sub end_ start) 1) in Hp.
      split; [done|]. split; [done|]. split; [lia|].
      intros _ Hend. pose proof SAFE_LIMIT_pos.
      rewrite Rounded_sub_exact by lia. rewrite Rounded_add_exact by lia. lia.
  - apply Deferred_window_invariant in He; [|lia]. lia.
Qed.

Lemma deferred_window_capped_witness :
  0 ≤ 500 ∧ 500 = 500 ∧ 0 < 500 ≤ 1000
  ∧ (500 + 1000 ≤ SAFE_LIMIT → 999 < SAFE_LIMIT → 500 ≤ 999 ∧ 500 = 999 - 500 + 1).
Proof.
  exact (deferred_window_capped (Some "bytes=500-999") 1000
           {| w_offset := 500; w_length := 500; w_start := 500; w_end := 999 |}
           ltac:(reflexivity) (or_introl eq_refl)).
Defined.

(** X3. Every window the eager-size parser resolves, against any size, has
    [offset = start] and [length = end - start + 1], starts at or after 0
    and ends before the size; against a size of at least 1 it is not
    empty. *)
Theorem eager_window_within_object (h : option string) (size : Z) (w : ByteWindow) :
  Eager.parseRange h size = Some (Eager.window w) →
  w_offset w = w_start w
  ∧ w_length w = w_end w - w_start w + 1
  ∧ 0 ≤ w_start w
  ∧ w_end w ≤ size - 1
  ∧ w_offset w + w_length w ≤ size
  ∧ (1 ≤ size → w_start w ≤ w_end w ∧ 1 ≤ w_length w).
Proof.
  unfold Eager.parseRange.
  destruct (negb (truthy h)); [done|].
  destruct (rangeMatch _) as [[startStr endStr]|]; [|done].
  destruct (_ && _); [done|]. destruct (String.eqb startStr "").
  { destruct (finite (Number endStr)) as [suffix|]; [|done].
    destruct (suffix <=? 0) eqn:Hs; [done|]. apply Z.leb_gt in Hs.
    intros [= <-]. cbn. lia. }
  destruct (finite (Number startStr)) as [start|]; [|done].
  destruct (start <? 0) eqn:Hs; [done|]. apply Z.ltb_ge in Hs.
  destruct (String.eqb endStr "").
  - destruct (size <=? start) eqn:Hu; [done|]. apply Z.leb_gt in Hu.
    intros [= <-]. cbn. lia.
  - destruct (finite (Number endStr)) as [end_|]; [|done].
    destruct (end_ <? start) eqn:He; [done|]. apply Z.ltb_ge in He.
    destruct (size <=? start) eqn:Hu; [done|]. apply Z.leb_gt in Hu.
    intros [= <-]. cbn. lia.
Qed.

Lemma eager_window_within_object_witness :
  990 = 990 ∧ 10 = 999 - 990 + 1 ∧ 0 ≤ 990 ∧ 999 ≤ 1000 - 1 ∧ 990 + 10 ≤ 1000
  ∧ (1 ≤ 1000 → 990 ≤ 999 ∧ 1 ≤ 10).
Proof.
  exact (eager_window_within_object (Some "bytes=990-5000") 1000
           {| w_offset := 990; w_length := 10; w_start := 990; w_end := 999 |} eq_refl).
Defined.

(** ** The grammar test of the eager-size worker *)

(** X4. [hasValidRangeFormat] holds exactly of the values of the form
    [bytes=a-b] with [a] and [b] runs of ASCII digits, either of which may
    be empty; it fails for an absent or empty header, and whenever the
    eager-size parser returns something other than [null] it holds. *)
Theorem hasValidRangeFormat_grammar (header : option string) :
  (Eager.hasValidRangeFormat header = true ↔
   ∃ a b, header = Some ("bytes=" +:+ a +:+ "-" +:+ b)
          ∧ allDigits a = true ∧ allDigits b = true)
  ∧ ∀ size, is_Some (Eager.parseRange header size) →
            Eager.hasValidRangeFormat header = true.
Proof.
  split.
  - unfold Eager.hasValidRangeFormat. split.
    + destruct header as [h|]; [|done]. intros H. apply andb_prop in H as [_ H].
      cbn [default from_option id] in H.
      destruct (rangeMatch h) as [[a b]|] eqn:Hm; [|done].
      apply rangeMatch_elim in Hm as (-> & Ha & Hb). by exists a, b.
    + intros (a & b & -> & Ha & Hb). rewrite truthy_bytes.
      cbn [default from_option id andb]. by rewrite rangeMatch_intro.
  - intros size [r Hr]. by eapply Eager_parseRange_valid.
Qed.

Lemma getMaxRangeBytes_positive_or_default_witness :
  Deferred.getMaxRangeBytes {| Deferred.RANGE_MAX_BYTES := Num 1000 |} = 1000
  ∧ Deferred.getMaxRangeBytes {| Deferred.RANGE_MAX_BYTES := Num (-5) |} = 8388608.
Proof.
  split.
  - exact (proj2 (proj2 (getMaxRangeBytes_positive_or_default
                           {| Deferred.RANGE_MAX_BYTES := Num 1000 |}))
                 1000 eq_refl ltac:(reflexivity)).
  - destruct (proj1 (proj2 (getMaxRangeBytes_positive_or_default
                              {| Deferred.RANGE_MAX_BYTES := Num (-5) |})))
      as [H | [H _]]; [discriminate H|exact H].
Defined.

Lemma hasValidRangeFormat_grammar_witness :
  Eager.hasValidRangeFormat (Some "bytes=0-499") = true
  ∧ Eager.hasValidRangeFormat (Some "bytes=-7") = true.
Proof.
  split.
  - apply (proj2 (hasValidRangeFormat_grammar (Some "bytes=0-499")) 1000).
    by eexists.
  - apply (proj1 (hasValidRangeFormat_grammar (Some "bytes=-7"))).
    exists "", "7". repeat split; reflexivity.
Defined.

(** ** The keys [normalizeKey] gives *)

Lemma append_assoc (a b c : string) : (a +:+ b) +:+ c = a +:+ b +:+ c.
Proof. induction a as [|x a IH]; simpl; [done|]. by rewrite IH. Qed.

Lemma startsWith_slash (s : string) :
  startsWith s "/" = match s with
                     | String c _ => Ascii.eqb c "/"
                     | EmptyString => false
                     end.
Proof.
  destruct s as [|c s]; [done|]. unfold startsWith. cbn [stripPrefix].
  rewrite (Ascii.eqb_sym "/" c). by destruct (Ascii.eqb c "/").
Qed.

Lemma stripLeadingSlashes_no_slash (s : string) :
  startsWith (stripLeadingSlashes s) "/" = false.
Proof.
  induction s as [|c s IH]; [done|]. cbn [stripLeadingSlashes].
  destruct (Ascii.eqb c "/") eqn:E; [done|]. by rewrite startsWith_slash.
Qed.

Lemma startsWith_slash_app (s t : string) :
  s ≠ "" → startsWith (s +:+ t) "/" = startsWith s "/".
Proof. intros Hs. rewrite !startsWith_slash. by destruct s. Qed.

Lemma index_html_no_trailing_slash (s t : string) : s +:+ "index.html" ≠ t +:+ "/".
Proof.
  revert t. induction s as [|c s IH]; intros t.
  - do 11 (destruct t as [|? t]; [discriminate|]). discriminate.
  - destruct t as [|c' t]; simpl.
    + intros [= _ H]. by destruct s.
    + intros [= _ H]. by eapply IH.
Qed.

(** X5. A key [normalizeKey] gives is never empty, never starts with [/]
    and never ends with [/]; it is [index.html], or ends with
    [/index.html] (the trailing-slash rule), or holds neither [..] nor
    U+0000. *)
Theorem normalizeKey_shape (pathname key : string) :
  normalizeKey pathname = Some key →
  key ≠ ""
  ∧ startsWith key "/" = false
  ∧ endsWith key "/" = false
  ∧ (key = "index.html"
     ∨ (∃ dir, key = dir +:+ "/index.html")
     ∨ (includes key ".." = false ∧ includes key NUL = false)).
Proof.
  unfold normalizeKey. destruct (decodeURIComponent pathname) as [d|]; [|done].
  cbv zeta. pose proof (stripLeadingSlashes_no_slash d) as Hslash.
  destruct (String.eqb (stripLeadingSlashes d) "") eqn:He.
  { intros [= <-]. repeat split; [done|]. by left. }
  apply String.eqb_neq in He.
  destruct (endsWith (stripLeadingSlashes d) "/") eqn:Hend.
  - intros [= <-]. split; [intros H; by apply append_empty_inv in H|].
    split; [by rewrite startsWith_slash_app|]. split.
    + apply not_true_is_false. rewrite endsWith_spec. intros [t Ht].
      by apply index_html_no_trailing_slash in Ht.
    + right; left. apply endsWith_spec in Hend as [t ->]. exists t.
      by rewrite append_assoc.
  - destruct (_ || _) eqn:Hbad; [done|]. intros [= <-].
    apply orb_false_iff in Hbad as [H1 H2]. repeat split; [done..|]. by right; right.
Qed.

Lemma normalizeKey_shape_witness :
  "docs/index.html" ≠ ""
  ∧ startsWith "docs/index.html" "/" = false
  ∧ endsWith "docs/index.html" "/" = false.
Proof.
  destruct (normalizeKey_shape "//docs/" "docs/index.html" eq_refl) as (H1 & H2 & H3 & _).
  exact (conj H1 (conj H2 H3)).
Defined.

(** ** The headers of a successful response *)

Lemma withCommonHeaders_lookups (obj : R2Object) (headers : Headers) :
  let written := writeHttpMetadata obj headers in
  let h := withCommonHeaders obj headers in
  h !! "ETag" = Some (httpEtag obj)
  ∧ h !! "Last-Modified" = Some (uploaded obj)
  ∧ h !! "Accept-Ranges" = Some "bytes"
  ∧ h !! "Cache-Control" = Some (default "public, max-age=3600" (written !! "Cache-Control")).
Proof.
  intros written h. subst h. unfold withCommonHeaders. cbv zeta. fold written.
  rewrite !lookup_insert_ne by done.
  destruct (written !! "Cache-Control") as [cc|] eqn:Hcc; cbn [present negb default from_option id].
  - repeat split.
    + rewrite !lookup_insert_ne by done. by rewrite lookup_insert_eq.
    + rewrite !lookup_insert_ne by done. by rewrite lookup_insert_eq.
    + by rewrite lookup_insert_eq.
    + by rewrite !lookup_insert_ne by done.
  - repeat split.
    + rewrite !lookup_insert_ne by done. by rewrite lookup_insert_eq.
    + rewrite !lookup_insert_ne by done. by rewrite lookup_insert_eq.
    + rewrite lookup_insert_ne by done. by rewrite lookup_insert_eq.
    + by rewrite lookup_insert_eq.
Qed.

(** X6. [withCommonHeaders] leaves ETag, Last-Modified and
    [Accept-Ranges: bytes] set from the object, whatever
    [writeHttpMetadata] wrote under those names; Cache-Control is what
    [writeHttpMetadata] wrote, or [public, max-age=3600] when it wrote
    none; every other header is as [writeHttpMetadata] left it. *)
Theorem withCommonHeaders_sets (obj : R2Object) (headers : Headers) :
  let written := writeHttpMetadata obj headers in
  let h := withCommonHeaders obj headers in
  h !! "ETag" = Some (httpEtag obj)
  ∧ h !! "Last-Modified" = Some (uploaded obj)
  ∧ h !! "Accept-Ranges" = Some "bytes"
  ∧ h !! "Cache-Control" = Some (default "public, max-age=3600" (written !! "Cache-Control"))
  ∧ ∀ name, name ∉ ["ETag"; "Last-Modified"; "Accept-Ranges"; "Cache-Control"] →
            h !! name = written !! name.
Proof.
  intros written h.
  destruct (withCommonHeaders_lookups obj headers) as (He & Hl & Ha & Hc).
  repeat split; [done..|].
  intros name Hn. subst h. unfold withCommonHeaders. cbv zeta. fold written.
  apply not_elem_of_cons in Hn as [H1 Hn]. apply not_elem_of_cons in Hn as [H2 Hn].
  apply not_elem_of_cons in Hn as [H3 Hn]. apply not_elem_of_cons in Hn as [H4 _].
  destruct (negb _); by rewrite !lookup_insert_ne by done.
Qed.

Lemma withCommonHeaders_sets_witness :
  let obj := {| size := Some 3; httpEtag := "v7"; uploaded := "Thu, 01 Jan 2026 00:00:00 GMT";
                httpMetadata := None;
                writeHttpMetadata := λ h, <["Content-Type" := "text/css"]>
                                            (<["ETag" := "stale"]> h);
                body := Some "a{}" |} in
  withCommonHeaders obj ∅ !! "Content-Type" = Some "text/css"
  ∧ withCommonHeaders obj ∅ !! "ETag" = Some "v7".
Proof.
  intros obj.
  destruct (withCommonHeaders_sets obj ∅) as (He & _ & _ & _ & Hother).
  split; [|exact He].
  refine (eq_trans (Hother "Content-Type" _) eq_refl).
  rewrite !not_elem_of_cons. repeat split; [discriminate..|]. apply not_elem_of_nil.
Defined.

(** ** The guards of the handlers *)

(** X7. A request whose method is neither GET nor HEAD is answered 405 with
    [Allow: GET, HEAD] and the body [Method Not Allowed] by both handlers,
    before the path is looked at and without a storage call. *)
Theorem other_methods_not_allowed (request : Request) (env : Deferred.Env) :
  method request ≠ "GET" → method request ≠ "HEAD" →
  Deferred.fetch request env = Ret MethodNotAllowed
  ∧ Eager.fetch request = Ret MethodNotAllowed
  ∧ status MethodNotAllowed = 405
  ∧ headers MethodNotAllowed = {["Allow" := "GET, HEAD"]}
  ∧ resp_body MethodNotAllowed = Some "Method Not Allowed".
Proof.
  intros Hg Hh. apply String.eqb_neq in Hg, Hh.
  unfold Deferred.fetch, Eager.fetch. by rewrite Hg, Hh.
Qed.

Lemma other_methods_not_allowed_witness :
  Deferred.fetch (sampleRequest "POST" "/a/../b" (Some "bytes=0-1")) sampleEnv
    = Ret MethodNotAllowed
  ∧ Eager.fetch (sampleRequest "DELETE" "/a.txt" None) = Ret MethodNotAllowed.
Proof.
  split.
  - exact (proj1 (other_methods_not_allowed
                    (sampleRequest "POST" "/a/../b" (Some "bytes=0-1")) sampleEnv
                    ltac:(discriminate) ltac:(discriminate))).
  - exact (proj1 (proj2 (other_methods_not_allowed
                           (sampleRequest "DELETE" "/a.txt" None) sampleEnv
                           ltac:(discriminate) ltac:(discriminate)))).
Defined.

(** X8. A GET or HEAD request whose path [normalizeKey] rejects is answered
    400 with the body [Bad Request] and no header by both handlers, whatever
    its [Range] header, without a storage call. *)
Theorem rejected_key_bad_request (request : Request) (env : Deferred.Env) :
  method request = "GET" ∨ method request = "HEAD" →
  normalizeKey (url_pathname request) = None →
  Deferred.fetch request env = Ret BadRequest
  ∧ Eager.fetch request = Ret BadRequest
  ∧ status BadRequest = 400
  ∧ headers BadRequest = ∅
  ∧ resp_body BadRequest = Some "Bad Request".
Proof.
  intros Hm Hk. unfold Deferred.fetch, Eager.fetch.
  by rewrite (method_guard _ Hm), Hk.
Qed.

Lemma rejected_key_bad_request_witness :
  Deferred.fetch (sampleRequest "GET" "/a/b/../c" (Some "bytes=0-1")) sampleEnv
    = Ret BadRequest
  ∧ Eager.fetch (sampleRequest "HEAD" "/%E0%A4%A" None) = Ret BadRequest.
Proof.
  split.
  - exact (proj1 (rejected_key_bad_request
                    (sampleRequest "GET" "/a/b/../c" (Some "bytes=0-1")) sampleEnv
                    (or_introl eq_refl) eq_refl)).
  - exact (proj1 (proj2 (rejected_key_bad_request
                           (sampleRequest "HEAD" "/%E0%A4%A" None) sampleEnv
                           (or_intror eq_refl) eq_refl))).
Defined.

(** ** Requests without a usable range *)

(** X9. A GET or HEAD request without a [Range] header makes, in both
    handlers, exactly one storage call: an unranged [get] of the normalized
    key with the request's headers as [onlyIf].  When the bucket has no
    such object the answer is 404; when it gives an object with a body the
    answer is 200 with [Content-Length] the object's size and the common
    headers, the body being the object's for GET and none for HEAD. *)
Theorem no_range_full_object
    (request : Request) (env : Deferred.Env) (b : Bucket) (key : string) :
  method request = "GET" ∨ method request = "HEAD" →
  normalizeKey (url_pathname request) = Some key →
  req_headers request !! "Range" = None →
  let result := bucket_get b key (req_headers request) None in
  Deferred.fetch request env = Eager.fetch request
  ∧ (run b (Eager.fetch request)).2 = [CallGet key (req_headers request) None result]
  ∧ (result = None → (run b (Eager.fetch request)).1 = NotFound)
  ∧ ∀ obj content,
      result = Some obj → body obj = Some content →
      (run b (Eager.fetch request)).1
      = {| status := 200;
           headers := <["Content-Length" := String_ (size obj)]> (withCommonHeaders obj ∅);
           resp_body := if String.eqb (method request) "HEAD" then None else Some content |}.
Proof.
  intros Hm Hk Hh result.
  assert (Deferred.fetch request env = fullObject request key) as Hd.
  { unfold Deferred.fetch. pass_guards Hm Hk. by rewrite Hh. }
  assert (Eager.fetch request = fullObject request key) as He.
  { unfold Eager.fetch. pass_guards Hm Hk. by rewrite Hh. }
  rewrite Hd, He. split; [done|]. split; [apply fullObject_calls|].
  rewrite fullObject_run. fold result. split.
  - by intros ->.
  - intros obj content -> Hb. by rewrite Hb.
Qed.

Lemma no_range_full_object_witness :
  let b := sampleBucket (sampleObject 50 (Some "content")) in
  (run b (Eager.fetch (sampleRequest "HEAD" "/a.txt" None))).1
  = {| status := 200;
       headers := <["Content-Length" := "50"]>
                    (withCommonHeaders (sampleObject 50 (Some "content")) ∅);
       resp_body := None |}.
Proof.
  intros b.
  exact (proj2 (proj2 (proj2 (no_range_full_object (sampleRequest "HEAD" "/a.txt" None)
                                sampleEnv b "a.txt" (or_intror eq_refl) eq_refl eq_refl)))
           (sampleObject 50 (Some "content")) "content" eq_refl eq_refl).
Defined.

(** ** What full and partial responses carry *)

Lemma withCommonHeaders_present (obj : R2Object) :
  withCommonHeaders obj ∅ !! "Accept-Ranges" = Some "bytes"
  ∧ is_Some (withCommonHeaders obj ∅ !! "ETag")
  ∧ is_Some (withCommonHeaders obj ∅ !! "Last-Modified")
  ∧ is_Some (withCommonHeaders obj ∅ !! "Cache-Control").
Proof.
  destruct (withCommonHeaders_lookups obj ∅) as (He & Hl & Ha & Hc).
  cbv zeta in *. rewrite He, Hl, Ha, Hc. by repeat split.
Qed.

Lemma successHeaders_other (r : Response) :
  status r ≠ 200 → status r ≠ 206 → successHeaders r.
Proof. intros H1 H2 [H | H]; by rewrite H in *. Qed.

Lemma successHeaders_200 (obj : R2Object) (len : string) (content : option string) :
  successHeaders {| status := 200;
                    headers := <["Content-Length" := len]> (withCommonHeaders obj ∅);
                    resp_body := content |}.
Proof.
  intros _. cbn [status headers].
  destruct (withCommonHeaders_present obj) as (Ha & He & Hl & Hc).
  rewrite !lookup_insert_ne by done. rewrite lookup_insert_eq.
  by repeat split.
Qed.

Lemma successHeaders_206
    (obj : R2Object) (len range : string) (content : option string) :
  successHeaders {| status := 206;
                    headers := <["Content-Length" := len]>
                                 (<["Content-Range" := range]> (withCommonHeaders obj ∅));
                    resp_body := content |}.
Proof.
  intros _. cbn [status headers].
  destruct (withCommonHeaders_present obj) as (Ha & He & Hl & Hc).
  rewrite !lookup_insert_ne by done. rewrite !lookup_insert_eq.
  rewrite lookup_insert_ne by done. rewrite lookup_insert_eq.
  by repeat split.
Qed.

(** Closes [always successHeaders] goals branch by branch. *)
Ltac success_branches :=
  repeat first
    [ apply always_Ret;
      first [ apply successHeaders_200 | apply successHeaders_206
            | by apply successHeaders_other ]
    | apply always_BucketHead; intros ?
    | apply always_BucketGet; intros ?
    | match goal with
      | |- always _ (if ?c then _ else _) => destruct c
      | |- always _ (match ?x with _ => _ end) => destruct x
      end ].

Lemma fullObject_successHeaders (request : Request) (key : string) :
  always successHeaders (fullObject request key).
Proof. unfold fullObject. run_storage. success_branches. Qed.

Lemma Deferred_fetch_successHeaders (request : Request) (env : Deferred.Env) :
  always successHeaders (Deferred.fetch request env).
Proof.
  unfold Deferred.fetch. cbv zeta.
  destruct (_ && _); [success_branches|].
  destruct (negb (truthy (normalizeKey (url_pathname request)))); [success_branches|].
  destruct (Deferred.parseRange _ _) as [[| |w]|].
  - destruct (truthy _); [success_branches|apply fullObject_successHeaders].
  - destruct (truthy _); [success_branches|apply fullObject_successHeaders].
  - run_storage. success_branches.
  - apply fullObject_successHeaders.
Qed.

Lemma Eager_fetch_successHeaders (request : Request) :
  always successHeaders (Eager.fetch request).
Proof.
  unfold Eager.fetch. cbv zeta.
  destruct (_ && _); [success_branches|].
  destruct (negb (truthy (normalizeKey (url_pathname request)))); [success_branches|].
  destruct (Eager.hasValidRangeFormat _); [|apply fullObject_successHeaders].
  run_storage. apply always_BucketHead. intros [size|]; [|success_branches].
  cbn [Storage_bind].
  destruct (Eager.parseRange _ _) as [[|w]|].
  - success_branches.
  - run_storage. success_branches.
  - apply fullObject_successHeaders.
Qed.

(** X10. Whatever the request and the bucket, a 200 or 206 response of
    either handler carries [Accept-Ranges: bytes], an ETag, a
    Last-Modified, a Cache-Control and a Content-Length, and a 206 response
    a Content-Range as well. *)
Theorem success_responses_carry_headers
    (request : Request) (env : Deferred.Env) (b : Bucket) (resp : Response) :
  resp = (run b (Deferred.fetch request env)).1 ∨ resp = (run b (Eager.fetch request)).1 →
  status resp = 200 ∨ status resp = 206 →
  headers resp !! "Accept-Ranges" = Some "bytes"
  ∧ is_Some (headers resp !! "ETag")
  ∧ is_Some (headers resp !! "Last-Modified")
  ∧ is_Some (headers resp !! "Cache-Control")
  ∧ is_Some (headers resp !! "Content-Length")
  ∧ (status resp = 206 → is_Some (headers resp !! "Content-Range")).
Proof.
  intros [-> | ->].
  - apply (always_run successHeaders), Deferred_fetch_successHeaders.
  - apply (always_run successHeaders), Eager_fetch_successHeaders.
Qed.

Lemma success_responses_carry_headers_witness :
  let resp := (run (sampleBucket (sampleObject 1000 (Some "content")))
                 (Deferred.fetch (sampleRequest "GET" "/a.bin" (Some "bytes=0-9"))
                    sampleEnv)).1 in
  headers resp !! "Accept-Ranges" = Some "bytes"
  ∧ is_Some (headers resp !! "Content-Range").
Proof.
  intros resp.
  destruct (success_responses_carry_headers
              (sampleRequest "GET" "/a.bin" (Some "bytes=0-9")) sampleEnv
              (sampleBucket (sampleObject 1000 (Some "content"))) resp
              (or_introl eq_refl) (or_intror eq_refl))
    as (Ha & _ & _ & _ & _ & Hr).
  exact (conj Ha (Hr eq_refl)).
Defined.

(** ** The eager-size handler on other ranges *)

(** X11. The eager-size handler ignores a [Range] value that is not of the
    grammar (another unit, several ranges, signs, spaces, the empty value):
    it makes no metadata probe and serves the request as one without a
    range, with a single unranged [get]. *)
Theorem eager_malformed_range_ignored
    (request : Request) (b : Bucket) (key h : string) :
  method request = "GET" ∨ method request = "HEAD" →
  normalizeKey (url_pathname request) = Some key →
  req_headers request !! "Range" = Some h →
  malformed h →
  Eager.fetch request = fullObject request key
  ∧ (run b (Eager.fetch request)).2
    = [CallGet key (req_headers request) None (bucket_get b key (req_headers request) None)]
  ∧ status (run b (Eager.fetch request)).1 ∈ [200; 304; 404].
Proof.
  intros Hm Hk Hh Hmal.
  assert (Eager.fetch request = fullObject request key) as ->.
  { unfold Eager.fetch. pass_guards Hm Hk. rewrite Hh.
    unfold Eager.hasValidRangeFormat. cbn [default from_option id].
    apply malformed_rangeMatch in Hmal as ->. by rewrite andb_false_r. }
  split; [done|]. split; [apply fullObject_calls|apply fullObject_status].
Qed.

Lemma eager_malformed_range_ignored_witness :
  (run (sampleBucket (sampleObject 50 (Some "content")))
     (Eager.fetch (sampleRequest "GET" "/a.txt" (Some "bytes=0-9,20-29")))).2
  = [CallGet "a.txt" {["Range" := "bytes=0-9,20-29"]} None
       (Some (sampleObject 50 (Some "content")))].
Proof.
  refine (proj1 (proj2 (eager_malformed_range_ignored
                          (sampleRequest "GET" "/a.txt" (Some "bytes=0-9,20-29"))
                          (sampleBucket (sampleObject 50 (Some "content")))
                          "a.txt" "bytes=0-9,20-29" (or_introl eq_refl) eq_refl eq_refl _))).
  apply malformed_rangeMatch. reflexivity.
Defined.

(** X12. When the [Range] value is of the grammar and the metadata probe
    finds no object, the eager-size handler answers 404 after the probe
    alone: no [get] is made. *)
Theorem eager_probe_miss_not_found (request : Request) (b : Bucket) (key : string) :
  method request = "GET" ∨ method request = "HEAD" →
  normalizeKey (url_pathname request) = Some key →
  Eager.hasValidRangeFormat (req_headers request !! "Range") = true →
  bucket_head b key = None →
  run b (Eager.fetch request) = (NotFound, [CallHead key None]).
Proof.
  intros Hm Hk Hv Hhead. unfold Eager.fetch. pass_guards Hm Hk.
  rewrite Hv. run_storage. by rewrite Hhead.
Qed.

Lemma eager_probe_miss_not_found_witness :
  run {| bucket_head := λ _, None; bucket_get := λ _ _ _, None |}
    (Eager.fetch (sampleRequest "GET" "/gone.txt" (Some "bytes=0-9")))
  = ({| status := 404; headers := ∅; resp_body := Some "Not Found" |},
     [CallHead "gone.txt" None]).
Proof.
  exact (eager_probe_miss_not_found (sampleRequest "GET" "/gone.txt" (Some "bytes=0-9"))
           {| bucket_head := λ _, None; bucket_get := λ _ _ _, None |} "gone.txt"
           (or_introl eq_refl) eq_refl eq_refl eq_refl).
Defined.

(** X13. Eager-size variant, closed range [bytes=N-M] with finite
    [N ≤ M] and a known size [S]: when [N ≥ S] the answer is 416 with
    [Content-Range: bytes */S] and no [get] is made; otherwise the window
    starts at [N] and ends at [min(M, S - 1)], storage is asked for exactly
    that window, and when it gives a body the answer is 206 with
    [Content-Range: bytes N-end/S] and [Content-Length: end - N + 1]. *)
Theorem eager_closed_range
    (request : Request) (b : Bucket) (key ns ms : string) (n m S : Z) :
  method request = "GET" ∨ method request = "HEAD" →
  normalizeKey (url_pathname request) = Some key →
  allDigits ns = true → allDigits ms = true → ns ≠ "" → ms ≠ "" →
  Number ns = Num n → Number ms = Num m → n ≤ m →
  req_headers request !! "Range" = Some ("bytes=" +:+ ns +:+ "-" +:+ ms) →
  bucket_head b key = Some S →
  let end_ := Z.min m (S - 1) in
  (S ≤ n →
     run b (Eager.fetch request)
     = ({| status := 416;
           headers := {["Content-Range" := "bytes */" +:+ NumberToString S]};
           resp_body := Some "Range Not Satisfiable" |},
        [CallHead key (Some S)]))
  ∧ (n < S →
     Eager.parseRange (req_headers request !! "Range") S
     = Some (Eager.window {| w_offset := n; w_length := end_ - n + 1;
                             w_start := n; w_end := end_ |})
     ∧ (run b (Eager.fetch request)).2
       = [CallHead key (Some S);
          CallGet key (req_headers request) (Some (n, end_ - n + 1))
            (bucket_get b key (req_headers request) (Some (n, end_ - n + 1)))]
     ∧ ∀ obj content,
         bucket_get b key (req_headers request) (Some (n, end_ - n + 1)) = Some obj →
         body obj = Some content →
         let resp := (run b (Eager.fetch request)).1 in
         status resp = 206
         ∧ headers resp !! "Content-Range"
           = Some ("bytes " +:+ NumberToString n +:+ "-" +:+ NumberToString end_
                   +:+ "/" +:+ NumberToString S)
         ∧ headers resp !! "Content-Length" = Some (NumberToString (end_ - n + 1))
         ∧ resp_body resp = if String.eqb (method request) "HEAD" then None
                            else Some content).
Proof.
  intros Hm Hk Hdn Hdm Hnn Hnm Hn Hm' Hle Hh Hhead end_.
  pose proof (Eager_parseRange_closed ns ms n m S Hdn Hdm Hnn Hnm Hn Hm') as Hp.
  assert ((m <? n) = false) as Hmn by by apply Z.ltb_ge.
  rewrite Hmn in Hp. rewrite <- Hh in Hp. split.
  - intros Hge. apply Z.leb_le in Hge. rewrite Hge in Hp.
    by apply Eager_run_unsatisfiable.
  - intros Hlt. apply Z.leb_gt in Hlt. rewrite Hlt in Hp. fold end_ in Hp.
    split; [done|]. split.
    + unfold Eager.fetch. pass_guards Hm Hk.
      rewrite (Eager_parseRange_valid _ _ _ Hp). run_storage.
      rewrite Hhead. cbn [Storage_bind]. rewrite Hp. run_storage.
      cbn [w_offset w_length].
      destruct (bucket_get b key (req_headers request) _) as [obj|]; [|done].
      cbn [Storage_bind]. by destruct (negb (present (body obj))).
    + intros obj content Hget Hbody resp. subst resp.
      rewrite (Eager_run_window request b key S _ obj content Hm Hk Hhead Hp Hget Hbody).
      cbn [status headers resp_body w_start w_end w_length]. repeat split.
      * rewrite lookup_insert_ne by done. by rewrite lookup_insert_eq.
      * by rewrite lookup_insert_eq.
Qed.

Lemma eager_closed_range_witness :
  let b := sampleBucket (sampleObject 1000 (Some "content")) in
  let resp := (run b (Eager.fetch (sampleRequest "GET" "/a.bin" (Some "bytes=990-5000")))).1 in
  status resp = 206
  ∧ headers resp !! "Content-Range" = Some "bytes 990-999/1000"
  ∧ headers resp !! "Content-Length" = Some "10"
  ∧ resp_body resp = Some "content".
Proof.
  intros b resp.
  exact (proj2 (proj2 (proj2 (eager_closed_range
                  (sampleRequest "GET" "/a.bin" (Some "bytes=990-5000")) b "a.bin"
                  "990" "5000" 990 5000 1000 (or_introl eq_refl) eq_refl eq_refl eq_refl
                  ltac:(discriminate) ltac:(discriminate) eq_refl eq_refl
                  ltac:(discriminate) eq_refl eq_refl) ltac:(reflexivity)))
           (sampleObject 1000 (Some "content")) "content" eq_refl eq_refl).
Defined.

(** ** The two variants against each other *)



(** ** What the handlers ask of storage *)

Lemma Deferred_parseRange_nonnull (h : option string) (maxBytes : Z) :
  truthy h = true → Deferred.parseRange h maxBytes ≠ None.
Proof.
  intros Ht. unfold Deferred.parseRange. rewrite Ht. cbn [negb].
  destruct (rangeMatch _) as [[a e]|]; [|done].
  destruct (_ && _); [done|]. destruct (String.eqb a ""); [done|].
  destruct (finite (Number a)) as [n|]; [|done].
  destruct (n <? 0); [done|]. destruct (String.eqb e "").
  - by destruct (_ <? _).
  - destruct (finite (Number e)) as [m|]; [|done].
    destruct (m <? n); [done|]. by destruct (_ <? _).
Qed.

(** X15. The deferred-size handler makes at most one storage call per
    request, never a metadata probe: a [get] of the normalized key with the
    request's headers as [onlyIf], whose range, when there is one, starts
    at or after 0 and has a length above 0 and at most the configured
    maximum. *)
Theorem deferred_storage_calls (request : Request) (env : Deferred.Env) (b : Bucket) :
  let calls := (run b (Deferred.fetch request env)).2 in
  calls = []
  ∨ ∃ key range,
      normalizeKey (url_pathname request) = Some key
      ∧ calls = [CallGet key (req_headers request) range
                   (bucket_get b key (req_headers request) range)]
      ∧ ∀ offset length, range = Some (offset, length) →
          0 ≤ offset ∧ 0 < length ≤ Deferred.getMaxRangeBytes env.
Proof.
  intros calls. subst calls. unfold Deferred.fetch. cbv zeta.
  destruct (_ && _); [by left|].
  destruct (normalizeKey (url_pathname request)) as [key|] eqn:Hk; [|by left].
  destruct (truthy (Some key)); [|by left]. cbn [negb default from_option id].
  assert (∀ p : Storage Response,
            p = fullObject request key →
            (run b p).2 = [] ∨ ∃ key0 range,
              Some key = Some key0
              ∧ (run b p).2 = [CallGet key0 (req_headers request) range
                                 (bucket_get b key0 (req_headers request) range)]
              ∧ ∀ offset length, range = Some (offset, length) →
                  0 ≤ offset ∧ 0 < length ≤ Deferred.getMaxRangeBytes env) as Hfull.
  { intros p ->. right. exists key, None. split; [done|].
    split; [apply fullObject_calls|done]. }
  destruct (Deferred.parseRange _ _) as [[| |w]|] eqn:Hp.
  - destruct (truthy _); [by left|by apply Hfull].
  - destruct (truthy _); [by left|by apply Hfull].
  - right. exists key, (Some (w_offset w, w_length w)). split; [done|]. split.
    + run_storage. destruct (bucket_get b key _ _) as [obj|]; [|done].
      cbn [Storage_bind]. destruct (negb (present (body obj))); [done|].
      destruct (size obj) as [S|]; [|done]. by destruct (S <=? w_start w).
    + intros offset length [= <- <-].
      apply Deferred_window_invariant in Hp;
        [lia|pose proof (Deferred_getMaxRangeBytes_pos env); lia].
  - by apply Hfull.
Qed.

(** X16. The eager-size handler makes at most two storage calls per
    request, all on the normalized key: either a single unranged [get], or
    a metadata probe followed by at most one [get]; a ranged [get] comes
    only after a probe that gave a size [S], and its window lies inside the
    object: [0 ≤ offset] and [offset + length ≤ S]. *)
Theorem eager_storage_calls (request : Request) (b : Bucket) :
  let calls := (run b (Eager.fetch request)).2 in
  calls = []
  ∨ ∃ key,
      normalizeKey (url_pathname request) = Some key
      ∧ (calls = [CallGet key (req_headers request) None
                    (bucket_get b key (req_headers request) None)]
         ∨ calls = [CallHead key (bucket_head b key)]
         ∨ ∃ S range,
             bucket_head b key = Some S
             ∧ calls = [CallHead key (Some S);
                        CallGet key (req_headers request) range
                          (bucket_get b key (req_headers request) range)]
             ∧ ∀ offset length, range = Some (offset, length) →
                 0 ≤ offset ∧ offset + length ≤ S).
Proof.
  intros calls. subst calls. unfold Eager.fetch. cbv zeta.
  destruct (_ && _); [by left|].
  destruct (normalizeKey (url_pathname request)) as [key|] eqn:Hk; [|by left].
  destruct (truthy (Some key)); [|by left]. cbn [negb default from_option id].
  right. exists key. split; [done|].
  destruct (Eager.hasValidRangeFormat _); [|left; apply fullObject_calls].
  run_storage. destruct (bucket_head b key) as [S|] eqn:Hhead; [|by right; left].
  cbn [Storage_bind]. right.
  destruct (Eager.parseRange _ _) as [[|w]|] eqn:Hp.
  - by left.
  - right. exists S, (Some (w_offset w, w_length w)). split; [done|]. split.
    + run_storage. destruct (bucket_get b key _ _) as [obj|]; [|done].
      cbn [Storage_bind]. by destruct (negb (present (body obj))).
    + intros offset length [= <- <-].
      revert Hp. unfold Eager.parseRange.
      destruct (negb (truthy _)); [done|].
      destruct (rangeMatch _) as [[startStr endStr]|]; [|done].
      destruct (_ && _); [done|]. destruct (String.eqb startStr "").
      { destruct (finite (Number endStr)) as [suffix|]; [|done].
        destruct (suffix <=? 0) eqn:Hs; [done|]. apply Z.leb_gt in Hs.
        intros [= <-]. cbn. lia. }
      destruct (finite (Number startStr)) as [start|]; [|done].
      destruct (start <? 0) eqn:Hs; [done|]. apply Z.ltb_ge in Hs.
      destruct (String.eqb endStr "").
      * destruct (S <=? start) eqn:Hu; [done|]. apply Z.leb_gt in Hu.
        intros [= <-]. cbn. lia.
      * destruct (finite (Number endStr)) as [end_|]; [|done].
        destruct (end_ <? start) eqn:He; [done|]. apply Z.ltb_ge in He.
        destruct (S <=? start) eqn:Hu; [done|]. apply Z.leb_gt in Hu.
        intros [= <-]. cbn. lia.
  - right. exists S, None. split; [done|]. split; [|done].
    pose proof (fullObject_calls request b key) as Hc.
    destruct (run b (fullObject request key)) as [r calls]. cbn [snd] in *. by rewrite Hc.
Qed.

(** ** The deferred-size handler on a range *)

(** X17. Deferred-size variant with an integral maximum, after a ranged
    fetch that returned a body but no numeric size, for a window whose
    start plus the maximum is at most 2^53 and whose end is below 2^53
    (where the code's arithmetic is exact and numbers print as decimal
    digits): the answer is 206, reports the window as it was requested with
    [*] for the total ([Content-Range: bytes start-end/*]) and the
    requested length as [Content-Length]. *)
Theorem deferred_unknown_size_reports_request
    (request : Request) (env : Deferred.Env) (b : Bucket)
    (key : string) (w : ByteWindow) (obj : R2Object) (content : string) :
  method request = "GET" ∨ method request = "HEAD" →
  normalizeKey (url_pathname request) = Some key →
  Deferred.parseRange (req_headers request !! "Range") (Deferred.getMaxRangeBytes env)
    = Some (Deferred.window w) →
  w_start w + Deferred.getMaxRangeBytes env ≤ SAFE_LIMIT →
  w_end w < SAFE_LIMIT →
  bucket_get b key (req_headers request) (Some (w_offset w, w_length w)) = Some obj →
  body obj = Some content →
  size obj = None →
  let resp := (run b (Deferred.fetch request env)).1 in
  Rounded.Deferred_parseRange (req_headers request !! "Range")
    (Deferred.getMaxRangeBytes env) = Some (Deferred.window w)
  ∧ status resp = 206
  ∧ headers resp !! "Content-Range"
    = Some ("bytes " +:+ NumberToString (w_start w) +:+ "-" +:+ NumberToString (w_end w)
            +:+ "/*")
  ∧ headers resp !! "Content-Length" = Some (NumberToString (w_length w))
  ∧ resp_body resp = if String.eqb (method request) "HEAD" then None else Some content.
Proof.
  intros Hm Hk Hp Hsafe Hend Hget Hbody Hsize resp.
  pose proof (Deferred_getMaxRangeBytes_pos env) as Hpos.
  destruct (Deferred_fetch_unknown_size request env b key w obj content
              Hm Hk Hp Hget Hbody Hsize) as (Hs & Hcr & Hcl).
  fold resp in Hs, Hcr, Hcl. split; [|repeat split; [done..| |]].
  - rewrite <- Hp. apply Rounded_Deferred_parseRange_exact; [done|].
    intros a e Hmatch. revert Hp. unfold Deferred.parseRange.
    destruct (negb (truthy _)); [done|]. rewrite Hmatch.
    pose proof Hmatch as Hel. apply rangeMatch_elim in Hel as (_ & Hda & Hde).
    destruct (_ && _); [done|]. destruct (String.eqb a ""); [done|].
    destruct (Number a) as [start| | |] eqn:Hna; cbn [finite]; try done.
    apply Number_Num in Hna as [-> _].
    destruct (_ <? 0); [done|]. destruct (String.eqb e "") eqn:Hee.
    + apply String.eqb_eq in Hee as ->. cbv zeta. rewrite Z.ltb_irrefl.
      intros [= <-]. cbn [w_start w_end decimalValue] in *.
      pose proof SAFE_LIMIT_pos. lia.
    + destruct (Number e) as [end_| | |] eqn:Hne; cbn [finite]; try done.
      apply Number_Num in Hne as [-> _].
      destruct (_ <? decimalValue 0 a); [done|]. cbv zeta.
      destruct (_ <? _); [done|]. intros [= <-]. cbn [w_start w_end] in *. lia.
  - rewrite Hcl. f_equal. f_equal.
    apply Deferred_window_invariant in Hp; lia.
  - subst resp. unfold Deferred.fetch. pass_guards Hm Hk. rewrite Hp. run_storage.
    rewrite Hget. cbn [Storage_bind]. by rewrite Hbody, Hsize.
Qed.

Lemma deferred_unknown_size_reports_request_witness :
  let obj := {| size := None; httpEtag := "v1"; uploaded := "Thu, 01 Jan 2026 00:00:00 GMT";
                httpMetadata := None; writeHttpMetadata := λ h, h;
                body := Some "0123456789" |} in
  let resp := (run {| bucket_head := λ _, None; bucket_get := λ _ _ _, Some obj |}
                 (Deferred.fetch (sampleRequest "GET" "/a.bin" (Some "bytes=0-9"))
                    sampleEnv)).1 in
  status resp = 206
  ∧ headers resp !! "Content-Range" = Some "bytes 0-9/*"
  ∧ headers resp !! "Content-Length" = Some "10"
  ∧ resp_body resp = Some "0123456789".
Proof.
  intros obj resp.
  exact (proj2 (deferred_unknown_size_reports_request
                  (sampleRequest "GET" "/a.bin" (Some "bytes=0-9")) sampleEnv
                  {| bucket_head := λ _, None; bucket_get := λ _ _ _, Some obj |} "a.bin"
                  {| w_offset := 0; w_length := 10; w_start := 0; w_end := 9 |} obj
                  "0123456789" (or_introl eq_refl) eq_refl eq_refl
                  ltac:(discriminate) ltac:(reflexivity) eq_refl eq_refl eq_refl)).
Defined.

Lemma Deferred_fetch_rangedStatus
    (request : Request) (env : Deferred.Env) (key h : string) :
  method request = "GET" ∨ method request = "HEAD" →
  normalizeKey (url_pathname request) = Some key →
  req_headers request !! "Range" = Some h → h ≠ "" →
  always rangedStatus (Deferred.fetch request env).
Proof.
  intros Hm Hk Hh Hne. unfold Deferred.fetch. pass_guards Hm Hk. rewrite Hh.
  assert (truthy (Some h) = true) as Ht by (cbn; by rewrite (eqb_empty_false h Hne)).
  rewrite Ht. pose proof (Deferred_parseRange_nonnull (Some h)
                            (Deferred.getMaxRangeBytes env) Ht) as Hnn.
  destruct (Deferred.parseRange _ _) as [[| |w]|]; [| | |done].
  - apply always_Ret. unfold rangedStatus. cbn. by repeat constructor.
  - apply always_Ret. unfold rangedStatus. cbn. by repeat constructor.
  - run_storage.
    repeat first
      [ apply always_Ret; unfold rangedStatus; cbn [status NotFound NotModified];
        by repeat constructor
      | apply always_BucketGet; intros ?
      | match goal with
        | |- always _ (if ?c then _ else _) => destruct c
        | |- always _ (match ?x with _ => _ end) => destruct x
        end ].
Qed.

Lemma deferred_storage_calls_shape
    (request : Request) (env : Deferred.Env) (b : Bucket) (key h : string) :
  method request = "GET" ∨ method request = "HEAD" →
  normalizeKey (url_pathname request) = Some key →
  req_headers request !! "Range" = Some h → h ≠ "" →
  (run b (Deferred.fetch request env)).2 = []
  ∨ ∃ w, (run b (Deferred.fetch request env)).2
         = [CallGet key (req_headers request) (Some (w_offset w, w_length w))
              (bucket_get b key (req_headers request) (Some (w_offset w, w_length w)))].
Proof.
  intros Hm Hk Hh Hne. unfold Deferred.fetch. pass_guards Hm Hk. rewrite Hh.
  assert (truthy (Some h) = true) as Ht by (cbn; by rewrite (eqb_empty_false h Hne)).
  rewrite Ht. pose proof (Deferred_parseRange_nonnull (Some h)
                            (Deferred.getMaxRangeBytes env) Ht) as Hnn.
  destruct (Deferred.parseRange _ _) as [[| |w]|]; [by left|by left| |done].
  right. exists w. run_storage.
  destruct (bucket_get b key _ _) as [obj|]; [|done].
  cbn [Storage_bind]. destruct (negb (present (body obj))); [done|].
  destruct (size obj) as [S|]; [|done]. by destruct (S <=? w_start w).
Qed.

(** X18. The deferred-size handler never serves the whole object to a GET
    or HEAD request that carries a non-empty [Range] value: the answer is
    206, 304, 404 or 416, never 200, and any [get] it makes is ranged. *)
Theorem deferred_range_never_full
    (request : Request) (env : Deferred.Env) (b : Bucket) (key h : string) :
  method request = "GET" ∨ method request = "HEAD" →
  normalizeKey (url_pathname request) = Some key →
  req_headers request !! "Range" = Some h → h ≠ "" →
  status (run b (Deferred.fetch request env)).1 ∈ [206; 304; 404; 416]
  ∧ status (run b (Deferred.fetch request env)).1 ≠ 200
  ∧ ∀ k onlyIf result,
      CallGet k onlyIf None result ∉ (run b (Deferred.fetch request env)).2.
Proof.
  intros Hm Hk Hh Hne.
  pose proof (always_run rangedStatus b _
                (Deferred_fetch_rangedStatus request env key h Hm Hk Hh Hne)) as Hs.
  unfold rangedStatus in Hs. split; [done|]. split.
  - intros H200. rewrite H200 in Hs.
    assert (200 ∉ [206; 304; 404; 416]) as Hn; [|done].
    rewrite !not_elem_of_cons. repeat split; [done..|apply not_elem_of_nil].
  - intros k onlyIf result.
    destruct (deferred_storage_calls_shape request env b key h Hm Hk Hh Hne) as [-> | [w ->]].
    + apply not_elem_of_nil.
    + rewrite list_elem_of_singleton. discriminate.
Qed.

Lemma deferred_range_never_full_witness :
  status (run (sampleBucket (sampleObject 50 (Some "content")))
            (Deferred.fetch (sampleRequest "GET" "/a.txt" (Some "bytes=80-")) sampleEnv)).1
  ≠ 200.
Proof.
  exact (proj1 (proj2 (deferred_range_never_full
                         (sampleRequest "GET" "/a.txt" (Some "bytes=80-")) sampleEnv
                         (sampleBucket (sampleObject 50 (Some "content"))) "a.txt" "bytes=80-"
                         (or_introl eq_refl) eq_refl eq_refl ltac:(discriminate)))).
Defined.

(** X19. On an open-ended range [bytes=N-] that starts inside an object of
    size [S] whose remaining [S - N] bytes fit the configured maximum, the
    two handlers give the same 206 response when storage gives them the
    same object: [Content-Range: bytes N-(S-1)/S] and
    [Content-Length: S - N]. *)
Theorem variants_agree_on_open_range
    (request : Request) (env : Deferred.Env) (b : Bucket)
    (key ns : string) (n S : Z) (obj : R2Object) (content : string) :
  method request = "GET" ∨ method request = "HEAD" →
  normalizeKey (url_pathname request) = Some key →
  allDigits ns = true → ns ≠ "" → Number ns = Num n →
  req_headers request !! "Range" = Some ("bytes=" +:+ ns +:+ "-") →
  n < S → S - n ≤ Deferred.getMaxRangeBytes env →
  bucket_head b key = Some S →
  bucket_get b key (req_headers request) (Some (n, Deferred.getMaxRangeBytes env))
    = Some obj →
  bucket_get b key (req_headers request) (Some (n, S - n)) = Some obj →
  body obj = Some content → size obj = Some S →
  let resp := (run b (Eager.fetch request)).1 in
  (run b (Deferred.fetch request env)).1 = resp
  ∧ status resp = 206
  ∧ headers resp !! "Content-Range"
    = Some ("bytes " +:+ NumberToString n +:+ "-" +:+ NumberToString (S - 1)
            +:+ "/" +:+ NumberToString S)
  ∧ headers resp !! "Content-Length" = Some (NumberToString (S - n)).
Proof.
  intros Hm Hk Hd Hne Hn Hh HS Hmax Hhead Hgd Hge Hbody Hsize resp. subst resp.
  assert (Eager.parseRange (req_headers request !! "Range") S
          = Some (Eager.window {| w_offset := n; w_length := S - n;
                                  w_start := n; w_end := S - 1 |})) as Hpe.
  { rewrite Hh, (Eager_parseRange_open ns n S) by done.
    by assert ((S <=? n) = false) as -> by by apply Z.leb_gt. }
  rewrite (Eager_run_window request b key S _ obj content Hm Hk Hhead Hpe Hge Hbody).
  cbn [w_start w_end w_length status headers]. split; [|repeat split].
  - unfold Deferred.fetch. pass_guards Hm Hk.
    rewrite Hh, (Deferred_parseRange_open ns n _ Hd Hne Hn). run_storage.
    cbn [w_offset w_length w_start w_end]. rewrite Hgd. cbn [Storage_bind].
    rewrite Hbody, Hsize. cbn [present negb].
    assert ((S <=? n) = false) as -> by by apply Z.leb_gt.
    cbn [run fst].
    replace (Z.min (n + Deferred.getMaxRangeBytes env - 1) (S - 1)) with (S - 1) by lia.
    by replace (S - 1 - n + 1) with (S - n) by lia.
  - rewrite lookup_insert_ne by done. by rewrite lookup_insert_eq.
  - by rewrite lookup_insert_eq.
Qed.

Lemma variants_agree_on_open_range_witness :
  let b := sampleBucket (sampleObject 1000 (Some "content")) in
  let resp := (run b (Eager.fetch (sampleRequest "GET" "/a.bin" (Some "bytes=200-")))).1 in
  (run b (Deferred.fetch (sampleRequest "GET" "/a.bin" (Some "bytes=200-")) sampleEnv)).1
  = resp
  ∧ status resp = 206
  ∧ headers resp !! "Content-Range" = Some "bytes 200-999/1000"
  ∧ headers resp !! "Content-Length" = Some "800".
Proof.
  intros b resp.
  exact (variants_agree_on_open_range
           (sampleRequest "GET" "/a.bin" (Some "bytes=200-")) sampleEnv b
           "a.bin" "200" 200 1000 (sampleObject 1000 (Some "content")) "content"
           (or_introl eq_refl) eq_refl eq_refl ltac:(discriminate) eq_refl eq_refl
           ltac:(reflexivity) ltac:(discriminate) eq_refl eq_refl eq_refl eq_refl eq_refl).
Defined.

(** ** Keys and leading slashes *)

Lemma decodeURIComponent_slash (pathname : string) :
  decodeURIComponent ("/" +:+ pathname) = String "/" <$> decodeURIComponent pathname.
Proof.
  unfold decodeURIComponent. cbn [append uriTokens]. cbn [Ascii.eqb Bool.eqb].
  destruct (uriTokens pathname) as [ts|]; [|done]. reflexivity.
Qed.

(** X20. [normalizeKey] does not see leading slashes: a path and the same
    path behind one more [/] get the same key, or are both rejected. *)
Theorem normalizeKey_leading_slash (pathname : string) :
  normalizeKey ("/" +:+ pathname) = normalizeKey pathname.
Proof.
  unfold normalizeKey. rewrite decodeURIComponent_slash.
  by destruct (decodeURIComponent pathname).
Qed.

(** ** A range on an object that is not there *)

(** X21. When the ranged [get] finds no object the answer is 404 with the
    body [Not Found], in both handlers: in the deferred-size one for every
    resolved window, in the eager-size one when the object went away after
    the probe. *)
Theorem ranged_get_miss_not_found
    (request : Request) (env : Deferred.Env) (b : Bucket) (key : string) :
  method request = "GET" ∨ method request = "HEAD" →
  normalizeKey (url_pathname request) = Some key →
  (∀ w, Deferred.parseRange (req_headers request !! "Range")
          (Deferred.getMaxRangeBytes env) = Some (Deferred.window w) →
        bucket_get b key (req_headers request) (Some (w_offset w, w_length w)) = None →
        (run b (Deferred.fetch request env)).1 = NotFound)
  ∧ (∀ w S, bucket_head b key = Some S →
            Eager.parseRange (req_headers request !! "Range") S = Some (Eager.window w) →
            bucket_get b key (req_headers request) (Some (w_offset w, w_length w)) = None →
            (run b (Eager.fetch request)).1 = NotFound)
  ∧ status NotFound = 404 ∧ resp_body NotFound = Some "Not Found".
Proof.
  intros Hm Hk. split; [|split; [|done]].
  - intros w Hp Hget. unfold Deferred.fetch. pass_guards Hm Hk. rewrite Hp.
    run_storage. by rewrite Hget.
  - intros w S Hhead Hp Hget. unfold Eager.fetch. pass_guards Hm Hk.
    rewrite (Eager_parseRange_valid _ _ _ Hp). run_storage.
    rewrite Hhead. cbn [Storage_bind]. rewrite Hp. run_storage. by rewrite Hget.
Qed.

Lemma ranged_get_miss_not_found_witness :
  (run {| bucket_head := λ _, Some 50; bucket_get := λ _ _ _, None |}
     (Eager.fetch (sampleRequest "GET" "/a.bin" (Some "bytes=0-9")))).1
  = {| status := 404; headers := ∅; resp_body := Some "Not Found" |}
  ∧ (run {| bucket_head := λ _, Some 50; bucket_get := λ _ _ _, None |}
       (Deferred.fetch (sampleRequest "GET" "/a.bin" (Some "bytes=0-9")) sampleEnv)).1
    = {| status := 404; headers := ∅; resp_body := Some "Not Found" |}.
Proof.
  pose proof (ranged_get_miss_not_found
                (sampleRequest "GET" "/a.bin" (Some "bytes=0-9")) sampleEnv
                {| bucket_head := λ _, Some 50; bucket_get := λ _ _ _, None |} "a.bin"
                (or_introl eq_refl) eq_refl) as (Hd & He & _).
  split.
  - exact (He {| w_offset := 0; w_length := 10; w_start := 0; w_end := 9 |} 50
              eq_refl eq_refl eq_refl).
  - exact (Hd {| w_offset := 0; w_length := 10; w_start := 0; w_end := 9 |}
              eq_refl eq_refl).
Defined.
